(** * ChatLuna: the cooperative ticket lock and the Puppeteer browser tool

    A shallow embedding of two pieces of the repository:

    - [ObjectLock] (the ticket-queue lock: [lock], [unlock], [runLocked]);
    - [PuppeteerBrowserTool] (the [web_browser] tool: [_call], its seven
      handlers, the DOM walk [processNode] and the link classifier of
      [getStructuredUrls]).

    JavaScript strings are modelled as [string]: a character is one code
    unit, restricted to the 8-bit range.  JavaScript numbers used as
    counters and indices are modelled as [nat]; the ticket counter is
    assumed to stay in the range where [++] is exact. *)

From Stdlib Require Import String Ascii List Arith NArith ZArith Bool Lia Sorted.
From Stdlib Require Import DecimalString.
Import ListNotations.

Set Implicit Arguments.
Set Warnings "-register-all".

(** ** Thrown values and completions *)

(** What a JavaScript [throw] (or a rejected promise) can carry, by how the
    tool's [catch] blocks look at it: [error instanceof Error],
    [error.message] and the template literal [`${error}`]. *)
Inductive thrown : Type :=
| ErrorObject (name message : string)   (* an instance of Error *)
| NullValue                             (* null *)
| UndefinedValue                        (* undefined *)
| OtherValue (message text : string).   (* anything else: what
                                           `${v.message}` and `${v}` print *)

(** The completion of a call: a value, or a thrown value. *)
Inductive outcome (A : Type) : Type :=
| Ok (a : A)
| Throw (e : thrown).
Arguments Ok {A} a.
Arguments Throw {A} e.

(** ** JavaScript strings *)

Module JS.
Local Open Scope string_scope.

(** The code units [String.prototype.trim] strips, among those below 256:
    TAB, LF, VT, FF, CR, SPACE and NBSP. *)
Definition isWhiteSpace (c : ascii) : bool :=
  let n := nat_of_ascii c in
  (((9 <=? n) && (n <=? 13)) || (n =? 32) || (n =? 160))%nat.

Definition isLineFeed (c : ascii) : bool := (nat_of_ascii c =? 10)%nat.

(** The string [\n]. *)
Definition LF : string := String "010"%char EmptyString.

Fixpoint trimStart (s : string) : string :=
  match s with
  | EmptyString => EmptyString
  | String c s' => if isWhiteSpace c then trimStart s' else s
  end.

Fixpoint trimEnd (s : string) : string :=
  match s with
  | EmptyString => EmptyString
  | String c s' =>
      match trimEnd s' with
      | EmptyString => if isWhiteSpace c then EmptyString else String c EmptyString
      | r => String c r
      end
  end.

(** [s.trim()]. *)
Definition trim (s : string) : string := trimEnd (trimStart s).

(** Lower case of one code unit: A-Z, and the capital letters of the
    Latin-1 block. *)
Definition lowerChar (c : ascii) : ascii :=
  let n := nat_of_ascii c in
  if (((65 <=? n) && (n <=? 90))
      || ((192 <=? n) && (n <=? 222) && negb (n =? 215)))%nat
  then ascii_of_nat (n + 32) else c.

(** [s.toLowerCase()]. *)
Fixpoint toLowerCase (s : string) : string :=
  match s with
  | EmptyString => EmptyString
  | String c s' => String (lowerChar c) (toLowerCase s')
  end.

(** [s.indexOf(c)] for a one-character needle: [None] stands for -1. *)
Fixpoint indexOf (c : ascii) (s : string) : option nat :=
  match s with
  | EmptyString => None
  | String d s' => if Ascii.eqb d c then Some 0 else option_map S (indexOf c s')
  end.

(** [s.slice(0, n)]. *)
Fixpoint sliceTo (n : nat) (s : string) : string :=
  match n, s with
  | S n', String c s' => String c (sliceTo n' s')
  | _, _ => EmptyString
  end.

(** [s.slice(n)]. *)
Fixpoint sliceFrom (n : nat) (s : string) : string :=
  match n, s with
  | S n', String _ s' => sliceFrom n' s'
  | _, _ => s
  end.

(** [s.includes(sub)]. *)
Fixpoint includes (sub s : string) : bool :=
  prefix sub s ||
  match s with
  | EmptyString => false
  | String _ s' => includes sub s'
  end.

(** [s.repeat(n)]. *)
Fixpoint repeat (s : string) (n : nat) : string :=
  match n with
  | 0 => EmptyString
  | S n' => s ++ repeat s n'
  end.

(** [s.replace(/\n/g, by)]. *)
Fixpoint replaceLineFeeds (by_ : string) (s : string) : string :=
  match s with
  | EmptyString => EmptyString
  | String c s' =>
      if isLineFeed c then by_ ++ replaceLineFeeds by_ s'
      else String c (replaceLineFeeds by_ s')
  end.

(** What [/\n{3,}/g] turns a maximal run of [run] line feeds into: the
    match is greedy, so a run of three or more is one match, replaced by
    two line feeds; a shorter run does not match and stays. *)
Definition collapsedRun (run : nat) : string :=
  if (3 <=? run)%nat then LF ++ LF else repeat LF run.

(** [s.replace(/\n{3,}/g, '\n\n')], scanning from the left with the length
    of the run of line feeds read so far. *)
Fixpoint collapseFrom (run : nat) (s : string) : string :=
  match s with
  | EmptyString => collapsedRun run
  | String c s' =>
      if isLineFeed c then collapseFrom (S run) s'
      else collapsedRun run ++ String c (collapseFrom 0 s')
  end.

Definition collapseLineFeeds (s : string) : string := collapseFrom 0 s.

(** [!s] is false: the string is not empty. *)
Definition truthy (s : string) : bool :=
  match s with
  | EmptyString => false
  | _ => true
  end.

(** Observations used to state what a text looks like. *)
Definition startsWithWhiteSpace (s : string) : bool :=
  match s with
  | EmptyString => false
  | String c _ => isWhiteSpace c
  end.

Fixpoint endsWithWhiteSpace (s : string) : bool :=
  match s with
  | EmptyString => false
  | String c EmptyString => isWhiteSpace c
  | String _ s' => endsWithWhiteSpace s'
  end.

(** The last code unit of a string. *)
Fixpoint lastChar (s : string) : option ascii :=
  match s with
  | EmptyString => None
  | String c EmptyString => Some c
  | String _ s' => lastChar s'
  end.

(** The number of line feeds the string starts with. *)
Fixpoint leadingLineFeeds (s : string) : nat :=
  match s with
  | EmptyString => 0
  | String c s' => if isLineFeed c then S (leadingLineFeeds s') else 0
  end.

(** Some run of [n] consecutive line feeds occurs in the string. *)
Fixpoint hasLineFeedRun (n : nat) (s : string) : bool :=
  (n <=? leadingLineFeeds s)%nat ||
  match s with
  | EmptyString => false
  | String _ s' => hasLineFeedRun n s'
  end.

End JS.

(** ** ObjectLock *)

Module Lock.

(** [private _lock], [private _queue], [private _currentId]. *)
Record ObjectLock : Type := mkLock {
  _lock : bool;
  _queue : list nat;
  _currentId : nat
}.

(** A fresh instance: [_lock = false], [_queue = []], [_currentId = 0]. *)
Definition fresh : ObjectLock := mkLock false [] 0.

(** [new Error('unlock without lock')]. *)
Definition ImproperUnlock : thrown := ErrorObject "Error" "unlock without lock".

(** [Array.prototype.indexOf]: [None] stands for -1. *)
Fixpoint indexOf (id : nat) (q : list nat) : option nat :=
  match q with
  | [] => None
  | x :: q' => if x =? id then Some 0 else option_map S (indexOf id q')
  end.

(** [q.splice(index, 1)]: the array without the element at [index]. *)
Fixpoint splice1 (index : nat) (q : list nat) : list nat :=
  match q, index with
  | [], _ => []
  | _ :: q', 0 => q'
  | x :: q', S i => x :: splice1 i q'
  end.

(** [this._queue[0] !== id]. *)
Definition head_differs (id : nat) (q : list nat) : bool :=
  match q with
  | [] => true
  | x :: _ => negb (x =? id)
  end.

(** Where a task stands inside [lock()]. *)
Inductive lock_status : Type :=
| Acquired   (* [this._lock = true; return id] was reached *)
| Waiting.   (* suspended in [await sleep(10)] *)

(** [lock()] from its call to its first suspension point or its return. *)
Definition lock_enter (s : ObjectLock) : nat * lock_status * ObjectLock :=
  let id := _currentId s in
  let s1 := mkLock (_lock s) (_queue s ++ [id]) (S id) in
  if _lock s1
  then (id, Waiting, s1)
  else (id, Acquired, mkLock true (_queue s1) (_currentId s1)).

(** One wake-up of a task suspended in [lock()]: the [while] condition is
    evaluated again; the task sleeps again or takes the lock. *)
Definition lock_poll (id : nat) (s : ObjectLock) : lock_status * ObjectLock :=
  if head_differs id (_queue s) || _lock s
  then (Waiting, s)
  else (Acquired, mkLock true (_queue s) (_currentId s)).

(** [unlock(id)]. *)
Definition unlock (id : nat) (s : ObjectLock) : outcome unit * ObjectLock :=
  if negb (_lock s) then (Throw ImproperUnlock, s)
  else match indexOf id (_queue s) with
       | None => (Throw ImproperUnlock, s)
       | Some index =>
           (Ok tt, mkLock false (splice1 index (_queue s)) (_currentId s))
       end.

(** [get isLocked()]. *)
Definition isLocked (s : ObjectLock) : bool := _lock s.

(** *** The lock under a cooperative scheduler

    JavaScript runs one task at a time and switches tasks only at an
    [await].  The lock object is shared by the tasks; the scheduler state
    also records which tickets are suspended inside [lock()] and which hold
    the lock (their [lock()] returned and nobody called [unlock] on them). *)
Record System : Type := mkSystem {
  obj : ObjectLock;
  waiting : list nat;
  holders : list nat
}.

Definition initial : System := mkSystem fresh [] [].

Inductive event : Type :=
| CallLock                 (* some task calls [lock()] *)
| Wake (id : nat)          (* the [sleep(10)] of ticket [id] ends *)
| CallUnlock (id : nat).   (* some task calls [unlock(id)] *)

Inductive response : Type :=
| Ticket (id : nat) (st : lock_status)
| Polled (st : lock_status)
| Released
| Rejected (e : thrown)
| NotAsleep.

Definition without (id : nat) (l : list nat) : list nat :=
  filter (fun x => negb (x =? id)) l.

Definition step (e : event) (s : System) : response * System :=
  match e with
  | CallLock =>
      match lock_enter (obj s) with
      | (id, Acquired, o) =>
          (Ticket id Acquired, mkSystem o (waiting s) (holders s ++ [id]))
      | (id, Waiting, o) =>
          (Ticket id Waiting, mkSystem o (waiting s ++ [id]) (holders s))
      end
  | Wake id =>
      if existsb (Nat.eqb id) (waiting s)
      then match lock_poll id (obj s) with
           | (Acquired, o) =>
               (Polled Acquired,
                mkSystem o (without id (waiting s)) (holders s ++ [id]))
           | (Waiting, o) => (Polled Waiting, mkSystem o (waiting s) (holders s))
           end
      else (NotAsleep, s)
  | CallUnlock id =>
      match unlock id (obj s) with
      | (Ok _, o) => (Released, mkSystem o (waiting s) (without id (holders s)))
      | (Throw e, o) => (Rejected e, mkSystem o (waiting s) (holders s))
      end
  end.

Fixpoint run (es : list event) (s : System) : System :=
  match es with
  | [] => s
  | e :: es' => run es' (snd (step e s))
  end.

(** The ids handed out by the [lock()] calls of [es], in call order. *)
Fixpoint tickets (es : list event) (s : System) : list nat :=
  match es with
  | [] => []
  | e :: es' =>
      match fst (step e s) with
      | Ticket id _ => id :: tickets es' (snd (step e s))
      | _ => tickets es' (snd (step e s))
      end
  end.

(** Proper use: [unlock(id)] is only called for a ticket that holds the lock. *)
Fixpoint proper (es : list event) (s : System) : bool :=
  match es with
  | [] => true
  | e :: es' =>
      match e with
      | CallUnlock id => existsb (Nat.eqb id) (holders s)
      | _ => true
      end && proper es' (snd (step e s))
  end.

(** At most one holder; the flag is set exactly when there is one, and the
    holder's ticket is still queued. *)
Definition exclusive (s : System) : Prop :=
  match holders s with
  | [] => _lock (obj s) = false
  | [h] => _lock (obj s) = true /\ In h (_queue (obj s))
  | _ => False
  end.

(** *** [runLocked] *)

(** What the other tasks do to the lock object during each [sleep(10)] of
    the task under study, one function per sleep; the list is the part of
    the future that is observed. *)
Definition interference : Type := list (ObjectLock -> ObjectLock).

(** The [while] loop of [lock()]; [None]: still asleep when the observed
    schedule ends. *)
Fixpoint lock_wait (id : nat) (sched : interference) (s : ObjectLock)
  : option ObjectLock * ObjectLock :=
  match sched with
  | [] => (None, s)
  | others :: sched' =>
      let s1 := others s in
      match lock_poll id s1 with
      | (Acquired, s2) => (Some s2, s2)
      | (Waiting, s2) => lock_wait id sched' s2
      end
  end.

(** Ticket [id] sleeps through the schedule: after each sleep the [while]
    condition holds, the flag is set or another ticket heads the queue. *)
Fixpoint asleep (id : nat) (sched : interference) (s : ObjectLock) : bool :=
  match sched with
  | [] => true
  | others :: sched' =>
      (head_differs id (_queue (others s)) || _lock (others s))
      && asleep id sched' (others s)
  end.

(** The lock object after the sleeps of a schedule that the task under
    study sleeps through. *)
Definition afterSleeps (sched : interference) (s : ObjectLock) : ObjectLock :=
  fold_left (fun x others => others x) sched s.

(** [await this.lock()]: the ticket id when the call returned. *)
Definition lock (sched : interference) (s : ObjectLock)
  : option nat * ObjectLock :=
  match lock_enter s with
  | (id, Acquired, s1) => (Some id, s1)
  | (id, Waiting, s1) =>
      match lock_wait id sched s1 with
      | (Some _, s2) => (Some id, s2)
      | (None, s2) => (None, s2)
      end
  end.

(** How a call of [runLocked] stands at the end of the observed schedule. *)
Inductive completion (T : Type) : Type :=
| Returns (r : T)
| Throws (e : thrown)
| Suspended.
Arguments Returns {T} r.
Arguments Throws {T} e.
Arguments Suspended {T}.

(** What another task may do to the lock object while the task under
    study is suspended in an [await]. *)
Inductive action : Type :=
| OtherLock                 (* it calls [lock()] *)
| OtherWake (id : nat)      (* it wakes up inside [lock()] as ticket [id] *)
| OtherUnlock (id : nat).   (* it calls [unlock(id)] *)

Definition act (a : action) (s : ObjectLock) : ObjectLock :=
  match a with
  | OtherLock => snd (lock_enter s)
  | OtherWake id => snd (lock_poll id s)
  | OtherUnlock id => snd (unlock id s)
  end.

Definition perform (l : list action) (s : ObjectLock) : ObjectLock :=
  fold_left (fun x a => act a x) l s.

(** No [unlock] among the actions. *)
Definition unlockFree (l : list action) : bool :=
  forallb (fun a => match a with OtherUnlock _ => false | _ => true end) l.

(** The number of [lock()] calls among the actions. *)
Definition calls (l : list action) : nat :=
  List.length (filter (fun a => match a with OtherLock => true | _ => false end) l).

(** [runLocked(func)].  [func] works on a state [W] of its own and either
    resolves to a result or rejects.  [during] is what happens to the lock
    object between the return of [lock()] and the call of [unlock(id)]:
    [await this.lock()] and [await func()] are suspension points, at which
    other tasks run.  The lock object in the result is the one right after
    [unlock(id)], or at the rejection of [func]. *)
Definition runLocked {T W : Type} (func : W -> outcome T * W)
    (sched : interference) (during : ObjectLock -> ObjectLock)
    (s : ObjectLock) (w : W)
  : completion T * ObjectLock * W :=
  match lock sched s with
  | (None, s1) => (Suspended, s1, w)
  | (Some id, s1) =>
      match func w with
      | (Throw e, w') => (Throws e, during s1, w')
      | (Ok result, w') =>
          match unlock id (during s1) with
          | (Throw e, s2) => (Throws e, s2, w')
          | (Ok _, s2) => (Returns result, s2, w')
          end
      end
  end.

(** The queue in increasing order, every entry below the counter. *)
Definition ordered (o : ObjectLock) : Prop :=
  StronglySorted lt (_queue o) /\
  Forall (fun id => id < _currentId o) (_queue o).

(** A ticket that was handed out and is no longer queued. *)
Definition dropped (id : nat) (s : System) : Prop :=
  id < _currentId (obj s) /\ ~ In id (_queue (obj s)).

(** What another task does during a sleep leaves a set flag set. *)
Definition keepsHeld (f : ObjectLock -> ObjectLock) : Prop :=
  forall s, _lock s = true -> _lock (f s) = true.

End Lock.

(** ** PuppeteerBrowserTool *)

Module Browser.
Import JS.
Local Open Scope string_scope.

(** *** The DOM read by the page callbacks *)

(** A DOM node: a text node, an element with the attributes the tool reads
    ([href], [className]) and its children, or a node of another type (a
    comment, say). *)
Inductive Node : Type :=
| TextNode (data : string)
| ElementNode (tagName : string) (href : option string) (className : string)
              (childNodes : list Node)
| OtherNode (data : string).

(** [node.textContent]: the text of the node's descendants. *)
Fixpoint textContent (node : Node) : string :=
  match node with
  | TextNode data => data
  | ElementNode _ _ _ childNodes =>
      (fix all (l : list Node) : string :=
         match l with
         | [] => ""
         | child :: l' => textContent child ++ all l'
         end) childNodes
  | OtherNode _ => ""
  end.

Definition tagIn (tagName : string) (tags : list string) : bool :=
  existsb (String.eqb tagName) tags.

Fixpoint indexOfTag (tagName : string) (tags : list string) : option nat :=
  match tags with
  | [] => None
  | t :: tags' =>
      if t =? tagName then Some 0 else option_map S (indexOfTag tagName tags')
  end.

(** [['h1', ..., 'h6'].indexOf(tagName) + 1]. *)
Definition headingLevel (tagName : string) : nat :=
  match indexOfTag tagName ["h1"; "h2"; "h3"; "h4"; "h5"; "h6"] with
  | Some i => S i
  | None => 0
  end.

(** [processNode(node, depth)]: the text the call appends to
    [structuredText].  [resolve href] is [new URL(href, baseUrl).toString()],
    [None] when the constructor throws. *)
Fixpoint processNode (resolve : string -> option string)
    (node : Node) (depth : nat) : string :=
  match node with
  | TextNode data =>
      let trimmedText := trim data in
      if truthy trimmedText then " " ++ trimmedText else ""
  | OtherNode _ => ""
  | ElementNode tag href className childNodes =>
      let tagName := toLowerCase tag in
      let text := trim (textContent node) in
      let children (d : nat) : string :=
        (fix each (l : list Node) : string :=
           match l with
           | [] => ""
           | child :: l' => processNode resolve child d ++ each l'
           end) childNodes in
      if tagName =? "a" then
        match href with
        | Some h =>
            if truthy h then
              match resolve h with
              | Some fullUrl => " [" ++ text ++ "](" ++ fullUrl ++ ")"
              | None => " [" ++ text ++ "](" ++ h ++ ")"
              end
            else " " ++ text
        | None => " " ++ text
        end
      else if tagIn tagName ["p"; "h1"; "h2"; "h3"; "h4"; "h5"; "h6"] then
        repeat LF (if (0 <? depth)%nat then 1 else 2)
        ++ repeat "#" (headingLevel tagName) ++ " "
        ++ children (S depth) ++ LF
      else if tagIn tagName ["ul"; "ol"] then
        LF ++ children (S depth) ++ LF
      else if tagName =? "li" then
        LF ++ repeat "  " depth ++ "- " ++ children (S depth)
      else if tagName =? "br" then LF
      else if tagIn tagName ["strong"; "b"] then " **" ++ text ++ "** "
      else if tagIn tagName ["em"; "i"] then " *" ++ text ++ "* "
      else if tagName =? "code" then " `" ++ text ++ "` "
      else if tagName =? "pre" then
        LF ++ "```" ++ LF ++ text ++ LF ++ "```" ++ LF
      else if tagName =? "blockquote" then
        LF ++ "> " ++ replaceLineFeeds (LF ++ "> ") text ++ LF
      else if tagName =? "table" then
        LF ++ children (S depth) ++ LF
      else if tagName =? "tr" then
        "|" ++ children (S depth) ++ LF
      else if tagIn tagName ["th"; "td"] then " " ++ text ++ " |"
      else if tagName =? "span" then
        if includes "highlight" className then " **" ++ text ++ "** "
        else if includes "italic" className then " *" ++ text ++ "* "
        else " " ++ text ++ " "
      else if negb (tagName =? "script") && negb (tagName =? "style") then
        children depth
      else ""
  end.

(** The callback of [getPageText]: [processNode(document.body)], then
    [structuredText.trim().replace(/\n{3,}/g, '\n\n')]. *)
Definition structuredText (resolve : string -> option string) (body : Node)
  : string :=
  collapseLineFeeds (trim (processNode resolve body 0)).

(** *** Links *)

(** What the callback of [getStructuredUrls] reads of one [a] element:
    [a.href], [a.textContent], [a.closest('nav')] (found or not) and
    [a.matches('header a, footer a')]. *)
Record Anchor : Type := mkAnchor {
  a_href : string;
  a_textContent : string;
  a_closest_nav : bool;
  a_matches_header_footer : bool
}.

(** The parts of [new URL(href)] the tool reads. *)
Record URL : Type := mkURL {
  url_hostname : string;
  url_pathname : string;
  url_search : string
}.

(** [urlStructure], keys in the order of the object literal. *)
Record UrlStructure : Type := mkUrlStructure {
  search : list string;
  navigation : list string;
  external : list string;
  other : list string
}.

Inductive Bucket : Type := Search | Navigation | External | Other.

Definition push (b : Bucket) (entry : string) (u : UrlStructure) : UrlStructure :=
  match b with
  | Search => mkUrlStructure (search u ++ [entry]) (navigation u) (external u) (other u)
  | Navigation => mkUrlStructure (search u) (navigation u ++ [entry]) (external u) (other u)
  | External => mkUrlStructure (search u) (navigation u) (external u ++ [entry]) (other u)
  | Other => mkUrlStructure (search u) (navigation u) (external u) (other u ++ [entry])
  end.

(** The [if] cascade of the [forEach] callback. *)
Definition bucketOf (currentHost : string) (url : URL) (a : Anchor) : Bucket :=
  if url_hostname url =? currentHost then
    if includes "search" (url_pathname url) || includes "q=" (url_search url)
    then Search
    else if a_closest_nav a || a_matches_header_footer a then Navigation
    else Other
  else External.

(** [`${linkText}: ${href}`] with [linkText = a.textContent?.trim() || '']. *)
Definition entryOf (a : Anchor) : string :=
  trim (a_textContent a) ++ ": " ++ a_href a.

(** One round of the [forEach] callback; [parse] is [new URL(href)],
    [None] when it throws, which ends the whole callback with [invalid]. *)
Definition visit (parse : string -> option URL) (invalid : thrown)
    (currentHost : string) (u : UrlStructure) (a : Anchor)
  : outcome UrlStructure :=
  if negb (truthy (a_href a)) then Ok u
  else match parse (a_href a) with
       | None => Throw invalid
       | Some url => Ok (push (bucketOf currentHost url a) (entryOf a) u)
       end.

Fixpoint forEach (parse : string -> option URL) (invalid : thrown)
    (currentHost : string) (anchors : list Anchor) (u : UrlStructure)
  : outcome UrlStructure :=
  match anchors with
  | [] => Ok u
  | a :: anchors' =>
      match visit parse invalid currentHost u a with
      | Ok u' => forEach parse invalid currentHost anchors' u'
      | Throw e => Throw e
      end
  end.

(** The callback of [getStructuredUrls], before [JSON.stringify]. *)
Definition classifyLinks (parse : string -> option URL) (invalid : thrown)
    (currentHost : string) (anchors : list Anchor) : outcome UrlStructure :=
  forEach parse invalid currentHost anchors (mkUrlStructure [] [] [] []).

(** The bucket of an anchor the callback does not skip. *)
Definition bucketOfAnchor (parse : string -> option URL) (currentHost : string)
    (a : Anchor) : option Bucket :=
  if truthy (a_href a)
  then option_map (fun url => bucketOf currentHost url a) (parse (a_href a))
  else None.

Definition sameBucket (b b' : Bucket) : bool :=
  match b, b' with
  | Search, Search | Navigation, Navigation
  | External, External | Other, Other => true
  | _, _ => false
  end.

(** The entries of the anchors of bucket [b], in document order. *)
Definition entriesOf (parse : string -> option URL) (currentHost : string)
    (b : Bucket) (l : list Anchor) : list string :=
  map entryOf
    (filter (fun a => match bucketOfAnchor parse currentHost a with
                      | Some b' => sameBucket b b'
                      | None => false
                      end) l).

(** Every link the callback does not skip has an [href] that [new URL]
    accepts. *)
Definition parsable (parse : string -> option URL) (l : list Anchor) : Prop :=
  forall a, In a l -> truthy (a_href a) = true -> parse (a_href a) <> None.

(** *** The tool and its collaborators *)

(** The document a page callback runs on. *)
Record Document : Type := mkDocument {
  location_href : string;
  location_hostname : string;
  body : Node;
  anchors : list Anchor        (* [document.querySelectorAll('a')] *)
}.

(** Everything outside the tool, as functions of an outside state [World]:
    the clock, the Puppeteer service and its pages, the text splitter, the
    vector store, the language model, and the engine's own texts. *)
Record Env (World Page Store : Type) : Type := mkEnv {
  now : World -> N;                        (* [Date.now()] *)
  puppeteer : World -> bool;               (* [ctx.puppeteer] is there *)
  newPage : World -> outcome Page * World; (* [puppeteer.browser.newPage()] *)
  goto : Page -> string -> N -> World -> outcome unit * World;
                                           (* [page.goto(url, {timeout})] *)
  goBack : Page -> N -> World -> outcome unit * World;
                                           (* [page.goBack({timeout})] *)
  content : Page -> World -> outcome string * World;   (* [page.content()] *)
  document : Page -> World -> outcome Document * World;
                       (* the document a [page.evaluate] callback runs on *)
  querySelector : Page -> string -> World -> outcome (option string) * World;
                       (* [textContent] of [document.querySelector(sel)] *)
  splitText : string -> World -> outcome (list string) * World;
  fromDocuments : list string -> World -> outcome Store * World;
  similaritySearch : Store -> string -> nat -> World
                     -> outcome (list string) * World;
  invoke : string -> World -> outcome string * World;
                       (* [(await model.invoke(input)).content] *)
  resolveUrl : string -> string -> option string;
                       (* base, then href: [new URL(href, base).toString()] *)
  parseUrl : string -> option URL;         (* [new URL(href)] *)
  stringify : UrlStructure -> string;      (* [JSON.stringify(u, null, 2)] *)
  nullMessage : string;        (* TypeError text: a property of null *)
  undefinedMessage : string;   (* TypeError text: a property of undefined *)
  notFunctionMessage : string; (* TypeError text: calling a non-function *)
  invalidUrlMessage : string   (* TypeError text of [new URL] *)
}.

(** The fields of the tool instance. *)
Record Tool (Page : Type) : Type := mkTool {
  page : option Page;
  lastActionTime : N;
  timeout : N;
  idleTimeout : N
}.

(** The keys of [this.actions]. *)
Inductive Verb : Type :=
| Open | Summarize | GetText | Select | Previous | GetHtml | GetStructuredUrls.

(** [this.actions], in the order of the object literal. *)
Definition actions : list (string * Verb) :=
  [("open", Open); ("summarize", Summarize); ("text", GetText);
   ("select", Select); ("previous", Previous); ("get-html", GetHtml);
   ("get-structured-urls", GetStructuredUrls)].

(** What [this.actions[action]] evaluates to.  [this.actions] is an object
    literal, so the lookup also finds what [Object.prototype] provides; of
    those names only [constructor] and [__proto__] survive [toLowerCase]. *)
Inductive Member : Type :=
| Handler (v : Verb)
| ObjectConstructor
| ObjectPrototype
| Undefined.

Fixpoint own (action : string) (table : list (string * Verb)) : option Verb :=
  match table with
  | [] => None
  | (key, v) :: table' => if key =? action then Some v else own action table'
  end.

Definition member (action : string) : Member :=
  match own action actions with
  | Some v => Handler v
  | None =>
      if action =? "constructor" then ObjectConstructor
      else if action =? "__proto__" then ObjectPrototype
      else Undefined
  end.

(** [Object.keys(this.actions).join(', ')]. *)
Definition availableActions : string := String.concat ", " (map fst actions).

(** Lines 75 to 88 of [_call]: the action and the parameter read off the
    input. *)
Definition route (input : string) : string * string :=
  match indexOf " " input with
  | Some firstSpaceIndex =>
      (toLowerCase (trim (sliceTo firstSpaceIndex input)),
       trim (sliceFrom (S firstSpaceIndex) input))
  | None =>
      let action := toLowerCase (trim input) in
      match member action with
      | Undefined => ("open", trim input)
      | _ => (action, "")
      end
  end.

(** Where [_call] sends an input. *)
Inductive Routing : Type :=
| ToHandler (v : Verb) (params : string)
| ToUnknownAction (action : string)
| ToInherited (action params : string).

Definition routing (input : string) : Routing :=
  let (action, params) := route input in
  match member action with
  | Handler v => ToHandler v params
  | Undefined => ToUnknownAction action
  | _ => ToInherited action params
  end.

(** The routing as the specification words it: with a space, the token
    before the first space, lowercased, is the verb and the trimmed
    remainder the parameter, an unknown verb being an error; without a
    space, the lowercased, trimmed input is the verb if it is a known one,
    and otherwise the entire input is the parameter of [open]. *)
Definition specifiedRouting (input : string) : Routing :=
  match indexOf " " input with
  | Some firstSpaceIndex =>
      let token := toLowerCase (sliceTo firstSpaceIndex input) in
      match own token actions with
      | Some v => ToHandler v (trim (sliceFrom (S firstSpaceIndex) input))
      | None => ToUnknownAction token
      end
  | None =>
      match own (toLowerCase (trim input)) actions with
      | Some v => ToHandler v ""
      | None => ToHandler Open input
      end
  end.

(** How each handler starts the text it returns for a failure. *)
Definition label (v : Verb) : string :=
  match v with
  | Open => "Error opening page: "
  | Summarize => "Error summarizing page: "
  | GetText => "Error getting page text: "
  | Select => "Error selecting div: "
  | Previous => "Error navigating to previous page: "
  | GetHtml => "Error getting HTML: "
  | GetStructuredUrls => "Error getting structured URLs: "
  end.

Definition advisoryLong : string := "No page is open, please use open action first".
Definition advisory : string := "No page is open".

Definition quote : string := String "034"%char EmptyString.

(** The prompt of [summarizeText]. *)
Definition summaryPrompt (text searchText : string) : string :=
  "Text: " ++ text ++ "

Please provide a comprehensive and objective summary of the above text"
  ++ (if truthy searchText
      then ", with a focus on " ++ quote ++ searchText ++ quote else "")
  ++ ". Your summary should be well-structured and thorough, including:

1. An overview of the main topic or themes (1 paragraph)
2. A detailed breakdown of key points, arguments, or findings (3-4 paragraphs)
3. Important supporting evidence, data, or examples (1-2 paragraphs)
4. Any contrasting viewpoints or limitations mentioned in the text (1 paragraph, if applicable)
5. Implications or conclusions drawn from the main points (1 paragraph)

Guidelines for the summary:
 - Organize the content into clear, logically flowing paragraphs
 - Maintain an objective tone throughout, avoiding sensationalism or bias
 - Use transitional phrases to connect ideas and ensure smooth flow between paragraphs
 - Include relevant quotes or statistics from the original text to support key points
 - If applicable, incorporate up to 5 important links from the text, contextually integrated into your summary
 - Ensure all information is accurate and derived from the provided text
 - IMPORTANT: Use the exact same language as the input text for your summary. Do not translate or change the language.

Please aim for a balanced, informative summary that a reader could use to gain a comprehensive understanding of the original content.

CRITICAL: Your summary MUST be in the same language as the original text. Do not translate or change the language under any circumstances.".

Section Handlers.
Variables World Page Store : Type.
Variable env : Env World Page Store.

(** A method of the tool: it reads and writes the instance and the outside
    world, and completes with a value or a thrown value. *)
Definition M (A : Type) : Type :=
  Tool Page -> World -> outcome A * Tool Page * World.

Definition ret {A : Type} (a : A) : M A := fun t w => (Ok a, t, w).

Definition throw {A : Type} (e : thrown) : M A := fun t w => (Throw e, t, w).

Definition bind {A B : Type} (m : M A) (k : A -> M B) : M B :=
  fun t w =>
    match m t w with
    | (Ok a, t', w') => k a t' w'
    | (Throw e, t', w') => (Throw e, t', w')
    end.

(** [try { body } catch (error) { handler }]. *)
Definition tryCatch {A : Type} (body : M A) (handler : thrown -> M A) : M A :=
  fun t w =>
    match body t w with
    | (Ok a, t', w') => (Ok a, t', w')
    | (Throw e, t', w') => handler e t' w'
    end.

(** [await] of a call into a collaborator. *)
Definition await {A : Type} (call : World -> outcome A * World) : M A :=
  fun t w => let (r, w') := call w in (r, t, w').

Definition getPage : M (option Page) := fun t w => (Ok (page t), t, w).

Definition setPage (p : option Page) : M unit :=
  fun t w => (Ok tt, mkTool p (lastActionTime t) (timeout t) (idleTimeout t), w).

Definition getTimeout : M N := fun t w => (Ok (timeout t), t, w).

(** The instance after [this.lastActionTime = Date.now()]. *)
Definition touched (t : Tool Page) (w : World) : Tool Page :=
  mkTool (page t) (now env w) (timeout t) (idleTimeout t).

(** [this.lastActionTime = Date.now()]. *)
Definition touch : M unit := fun t w => (Ok tt, touched t w, w).

Notation "x <- m ;; k" := (bind m (fun x => k))
  (at level 61, m at next level, right associativity).
Notation "m ;;; k" := (bind m (fun _ => k))
  (at level 61, right associativity).

(** [error.message] inside a template literal. *)
Definition messageOf (error : thrown) : M string :=
  match error with
  | ErrorObject _ message => ret message
  | NullValue => throw (ErrorObject "TypeError" (nullMessage env))
  | UndefinedValue => throw (ErrorObject "TypeError" (undefinedMessage env))
  | OtherValue message _ => ret message
  end.

(** [`${error}`]. *)
Definition textOf (error : thrown) : string :=
  match error with
  | ErrorObject name message =>
      if negb (truthy name) then message
      else if negb (truthy message) then name
      else name ++ ": " ++ message
  | NullValue => "null"
  | UndefinedValue => "undefined"
  | OtherValue _ text => text
  end.

(** The [catch] block shared by the handlers but one:
    [console.error(error); return `${label}${error.message}`]. *)
Definition report (label : string) (error : thrown) : M string :=
  message <- messageOf error ;; ret (label ++ message).

(** [initBrowser()]; its [catch] logs and throws the error again. *)
Definition initBrowser : M unit :=
  tryCatch
    (p <- getPage ;;
     match p with
     | Some _ => ret tt
     | None =>
         available <- await (fun w => (Ok (puppeteer env w), w)) ;;
         if available : bool
         then (created <- await (newPage env) ;; setPage (Some created))
         else throw (ErrorObject "Error" "Puppeteer service is not available")
     end)
    (fun error => throw error).

(** The [try] block of [openPage(url)]. *)
Definition openPageTry (url : string) : M string :=
  initBrowser ;;;
  p <- getPage ;;
  match p with
  | Some handle =>
      ms <- getTimeout ;;
      await (goto env handle url ms) ;;;
      ret "Page opened successfully"
  | None => throw (ErrorObject "TypeError" (nullMessage env))
  end.

(** [openPage(url)]. *)
Definition openPage (url : string) : M string :=
  tryCatch (openPageTry url) (report "Error opening page: ").

(** The [try] block of [getPageText(searchText)]. *)
Definition getPageTextTry (searchText : string) : M string :=
  p <- getPage ;;
  match p with
  | None => ret advisoryLong
  | Some handle =>
      doc <- await (document env handle) ;;
      let text :=
        structuredText (resolveUrl env (location_href doc)) (body doc) in
      if truthy searchText then
        texts <- await (splitText env text) ;;
        vectorStore <- await (fromDocuments env texts) ;;
        results <- await (similaritySearch env vectorStore searchText 20) ;;
        ret (String.concat (LF ++ LF) results)
      else ret text
  end.

(** [getPageText(searchText)]. *)
Definition getPageText (searchText : string) : M string :=
  tryCatch (getPageTextTry searchText) (report "Error getting page text: ").

(** [summarizeText(text, searchText)]. *)
Definition summarizeText (text searchText : string) : M string :=
  tryCatch
    (await (invoke env (summaryPrompt text searchText)))
    (report "Error summarizing text: ").

(** [summarizePage(searchText)].  Its [try] block awaits [getPageText] and
    then returns the promise of [summarizeText] without awaiting it: what
    [summarizeText] throws is not caught here. *)
Definition summarizePage (searchText : string) : M string :=
  r <- tryCatch
         (text <- getPageText searchText ;; ret (inl text))
         (fun error =>
            text <- report "Error summarizing page: " error ;; ret (inr text)) ;;
  match r with
  | inl text => summarizeText text searchText
  | inr text => ret text
  end.

(** The [try] block of [selectDiv(selector)]; [querySelector] gives the
    [textContent] of the first match. *)
Definition selectDivTry (selector : string) : M string :=
  p <- getPage ;;
  match p with
  | None => ret advisory
  | Some handle =>
      found <- await (querySelector env handle selector) ;;
      let content :=
        match found with
        | Some elementText => elementText
        | None => "Element not found"
        end in
      ret (if truthy content then content else "No content found")
  end.

(** [selectDiv(selector)]. *)
Definition selectDiv (selector : string) : M string :=
  tryCatch (selectDivTry selector) (report "Error selecting div: ").

(** The [try] block of [goToPreviousPage()]. *)
Definition goToPreviousPageTry : M string :=
  p <- getPage ;;
  match p with
  | None => ret advisory
  | Some handle =>
      ms <- getTimeout ;;
      await (goBack env handle ms) ;;;
      ret "Navigated to previous page"
  end.

(** The [catch] block of [goToPreviousPage()]: it reads [error.message] for
    the log and returns [`${error}`]. *)
Definition goToPreviousPageCatch (error : thrown) : M string :=
  messageOf error ;;;
  ret ("Error navigating to previous page: " ++ textOf error).

(** [goToPreviousPage()]. *)
Definition goToPreviousPage : M string :=
  tryCatch goToPreviousPageTry goToPreviousPageCatch.

(** The [try] block of [getHtml()]. *)
Definition getHtmlTry : M string :=
  p <- getPage ;;
  match p with
  | None => ret advisory
  | Some handle => await (content env handle)
  end.

(** [getHtml()]. *)
Definition getHtml : M string :=
  tryCatch getHtmlTry (report "Error getting HTML: ").

(** The [try] block of [getStructuredUrls()]. *)
Definition getStructuredUrlsTry : M string :=
  p <- getPage ;;
  match p with
  | None => ret advisory
  | Some handle =>
      doc <- await (document env handle) ;;
      match classifyLinks (parseUrl env)
              (ErrorObject "TypeError" (invalidUrlMessage env))
              (location_hostname doc) (anchors doc) with
      | Ok urlStructure => ret (stringify env urlStructure)
      | Throw e => throw e
      end
  end.

(** [getStructuredUrls()]. *)
Definition getStructuredUrls : M string :=
  tryCatch getStructuredUrlsTry (report "Error getting structured URLs: ").

(** The handler of each key in three parts: what its [try] block awaits,
    what the block then returns (its value, or for [summarize] the promise
    of [summarizeText], which is not awaited), and its [catch] block. *)
Definition tryBlock (v : Verb) (params : string) : M string :=
  match v with
  | Open => openPageTry params
  | Summarize => getPageText params
  | GetText => getPageTextTry params
  | Select => selectDivTry params
  | Previous => goToPreviousPageTry
  | GetHtml => getHtmlTry
  | GetStructuredUrls => getStructuredUrlsTry
  end.

Definition returned (v : Verb) (params text : string) : M string :=
  match v with
  | Summarize => summarizeText text params
  | _ => ret text
  end.

Definition catchBlock (v : Verb) : thrown -> M string :=
  match v with
  | Previous => goToPreviousPageCatch
  | _ => report (label v)
  end.

(** What a [catch] block that returns [`${start}${error.message}`] makes
    of a thrown value: the text, or the [TypeError] of reading [message]
    off null or undefined. *)
Definition reported (start : string) (e : thrown) : outcome string :=
  match e with
  | ErrorObject _ message => Ok (start ++ message)
  | OtherValue message _ => Ok (start ++ message)
  | NullValue => Throw (ErrorObject "TypeError" (nullMessage env))
  | UndefinedValue => Throw (ErrorObject "TypeError" (undefinedMessage env))
  end.

(** What the [catch] block of the handler of [v] makes of a thrown value;
    the one of [previous] returns [`${start}${error}`]. *)
Definition converted (v : Verb) (e : thrown) : outcome string :=
  match v, e with
  | Previous, ErrorObject _ _ => Ok (label v ++ textOf e)
  | Previous, OtherValue _ _ => Ok (label v ++ textOf e)
  | _, _ => reported (label v) e
  end.

(** [this.actions[action](params)] for an own key. *)
Definition handler (v : Verb) (params : string) : M string :=
  match v with
  | Open => openPage params
  | Summarize => summarizePage params
  | GetText => getPageText params
  | Select => selectDiv params
  | Previous => goToPreviousPage
  | GetHtml => getHtml
  | GetStructuredUrls => getStructuredUrls
  end.

(** Lines 92 to 96 of [_call].  For the key [constructor] the call is
    [Object(params)], whose text is [params]; for [__proto__] it is a call
    of a non-function. *)
Definition dispatch (action params : string) : M string :=
  match member action with
  | Handler v => handler v params
  | ObjectConstructor => ret params
  | ObjectPrototype => throw (ErrorObject "TypeError" (notFunctionMessage env))
  | Undefined =>
      ret ("Unknown action: " ++ action ++ ". Available actions: "
           ++ availableActions)
  end.

(** The [catch] block of [_call]. *)
Definition callCatch (error : thrown) : M string :=
  match error with
  | ErrorObject _ message => ret ("Error: " ++ message)
  | _ => ret "An unknown error occurred"
  end.

(** [_call(input)]. *)
Definition _call (input : string) : M string :=
  tryCatch
    (let (action, params) := route input in
     touch ;;; dispatch action params)
    callCatch.

(** The call of the handler of [v] on [params] as [_call] makes it: after
    the time stamp, inside the [try] of [_call]. *)
Definition dispatched (v : Verb) (params : string) : M string :=
  tryCatch (touch ;;; handler v params) callCatch.

(** A method that leaves the fields of the instance as they are. *)
Definition steady {A : Type} (m : M A) : Prop :=
  forall t w, snd (fst (m t w)) = t.

(** [closeBrowser()]; [close] is [page.close()].  Its [catch] block logs
    the error and returns. *)
Definition closeBrowser (close : Page -> World -> outcome unit * World)
  : M unit :=
  tryCatch
    (p <- getPage ;;
     match p with
     | Some handle => await (close handle) ;;; setPage None
     | None => ret tt
     end)
    (fun _ => ret tt).

(** [Date.now() - this.lastActionTime > this.idleTimeout]. *)
Definition idle (t : Tool Page) (w : World) : bool :=
  (Z.of_N (now env w) - Z.of_N (lastActionTime t) >? Z.of_N (idleTimeout t))%Z.

(** One run of the interval callback of [startIdleTimer()]. *)
Definition idleSweep (close : Page -> World -> outcome unit * World)
  : M unit :=
  fun t w => if idle t w then closeBrowser close t w else (Ok tt, t, w).

End Handlers.






(** A tool as the constructor leaves it, with the default timeouts. *)
Definition newTool (Page : Type) (created : N) : Tool Page :=
  mkTool None created 30000 300000.

(** *** A small concrete environment

    A world with one site: [https://example.com] loads, [https://down.example]
    does not resolve.  The outside state is the clock. *)
Module Sample.

Definition sampleBody : Node :=
  ElementNode "DIV" None ""
    [ElementNode "H1" None "" [TextNode "Example Domain"];
     ElementNode "P" None "" [];
     ElementNode "P" None "" [];
     ElementNode "P" None ""
       [TextNode " More "; ElementNode "A" (Some "/search?q=rocq") "" [TextNode "information"]]].

(** A page with empty blocks between two words. *)
Definition blanks : Node :=
  ElementNode "BODY" None ""
    [TextNode "a"; ElementNode "UL" None "" []; ElementNode "UL" None "" [];
     ElementNode "UL" None "" []; ElementNode "BR" None "" []; TextNode "b "].

Definition sampleAnchors : list Anchor :=
  [mkAnchor "https://example.com/search?q=rocq" " information " false false;
   mkAnchor "https://example.com/about" "About" true false;
   mkAnchor "" "no target" false false;
   mkAnchor "https://www.iana.org/domains" "IANA" false true;
   mkAnchor "https://example.com/terms" "Terms" false false;
   mkAnchor "https://example.com/research" "Research" true false].

Definition sampleDocument : Document :=
  mkDocument "https://example.com/" "example.com" sampleBody sampleAnchors.

Definition sampleUrls : list (string * URL) :=
  [("https://example.com/search?q=rocq", mkURL "example.com" "/search" "?q=rocq");
   ("https://example.com/about", mkURL "example.com" "/about" "");
   ("https://www.iana.org/domains", mkURL "www.iana.org" "/domains" "");
   ("https://example.com/terms", mkURL "example.com" "/terms" "");
   ("https://example.com/research", mkURL "example.com" "/research" "")].

Fixpoint lookupUrl (href : string) (table : list (string * URL)) : option URL :=
  match table with
  | [] => None
  | (key, url) :: table' => if key =? href then Some url else lookupUrl href table'
  end.

Definition showBucket (name : string) (entries : list string) : string :=
  name ++ "=[" ++ String.concat "; " entries ++ "]".

Definition sampleEnv : Env N nat (list string) :=
  {| now := fun w => w;
     puppeteer := fun _ => true;
     newPage := fun w => (Ok 1, N.succ w);
     goto := fun _ url _ w =>
       if url =? "https://down.example"
       then (Throw (ErrorObject "Error"
                      "net::ERR_NAME_NOT_RESOLVED at https://down.example"),
             N.succ w)
       else (Ok tt, N.succ w);
     goBack := fun _ _ w => (Ok tt, N.succ w);
     content := fun _ w => (Ok "<html><body>Example Domain</body></html>", N.succ w);
     document := fun _ w => (Ok sampleDocument, N.succ w);
     querySelector := fun _ selector w =>
       (Ok (if selector =? "h1" then Some "Example Domain" else None), N.succ w);
     splitText := fun text w => (Ok [text], N.succ w);
     fromDocuments := fun texts w => (Ok texts, N.succ w);
     similaritySearch := fun store _ k w => (Ok (firstn k store), N.succ w);
     invoke := fun prompt w =>
       (Ok ("Summary of <" ++ sliceTo 51 prompt ++ ">"), N.succ w);
     resolveUrl := fun _ href => Some ("https://example.com" ++ href);
     parseUrl := fun href => lookupUrl href sampleUrls;
     stringify := fun u =>
       showBucket "search" (search u) ++ " "
       ++ showBucket "navigation" (navigation u) ++ " "
       ++ showBucket "external" (external u) ++ " "
       ++ showBucket "other" (other u);
     nullMessage := "Cannot read properties of null";
     undefinedMessage := "Cannot read properties of undefined";
     notFunctionMessage := "this.actions[action] is not a function";
     invalidUrlMessage := "Invalid URL" |}.

(** The same world with a language model that rejects with [null]. *)
Definition brokenModelEnv : Env N nat (list string) :=
  mkEnv (now sampleEnv) (puppeteer sampleEnv) (newPage sampleEnv)
        (goto sampleEnv) (goBack sampleEnv) (content sampleEnv)
        (document sampleEnv) (querySelector sampleEnv) (splitText sampleEnv)
        (fromDocuments sampleEnv) (similaritySearch sampleEnv)
        (fun _ w => (Throw NullValue, N.succ w))
        (resolveUrl sampleEnv) (parseUrl sampleEnv) (stringify sampleEnv)
        (nullMessage sampleEnv) (undefinedMessage sampleEnv)
        (notFunctionMessage sampleEnv) (invalidUrlMessage sampleEnv).

(** The same world without the Puppeteer service. *)
Definition offlineEnv : Env N nat (list string) :=
  mkEnv (now sampleEnv) (fun _ => false) (newPage sampleEnv)
        (goto sampleEnv) (goBack sampleEnv) (content sampleEnv)
        (document sampleEnv) (querySelector sampleEnv) (splitText sampleEnv)
        (fromDocuments sampleEnv) (similaritySearch sampleEnv)
        (invoke sampleEnv)
        (resolveUrl sampleEnv) (parseUrl sampleEnv) (stringify sampleEnv)
        (nullMessage sampleEnv) (undefinedMessage sampleEnv)
        (notFunctionMessage sampleEnv) (invalidUrlMessage sampleEnv).

(** [page.close()] that succeeds, and one that fails. *)
Definition sampleClose (_ : nat) (w : N) : outcome unit * N :=
  (Ok tt, N.succ w).

Definition failingClose (_ : nat) (w : N) : outcome unit * N :=
  (Throw (ErrorObject "Error" "Protocol error: Target closed"), N.succ w).

(** A page with one link that [new URL] rejects, and the world whose page
    it is. *)
Definition brokenLinkDocument : Document :=
  mkDocument "https://example.com/" "example.com" sampleBody
    [mkAnchor "https://example.com/about" "About" true false;
     mkAnchor "http://" "broken" false false;
     mkAnchor "https://example.com/terms" "Terms" false false].

Definition brokenLinkEnv : Env N nat (list string) :=
  mkEnv (now sampleEnv) (puppeteer sampleEnv) (newPage sampleEnv)
        (goto sampleEnv) (goBack sampleEnv) (content sampleEnv)
        (fun _ w => (Ok brokenLinkDocument, N.succ w))
        (querySelector sampleEnv) (splitText sampleEnv)
        (fromDocuments sampleEnv) (similaritySearch sampleEnv)
        (invoke sampleEnv)
        (resolveUrl sampleEnv) (parseUrl sampleEnv) (stringify sampleEnv)
        (nullMessage sampleEnv) (undefinedMessage sampleEnv)
        (notFunctionMessage sampleEnv) (invalidUrlMessage sampleEnv).

End Sample.

End Browser.

(** ** The search service: tool selection *)

Module SearchService.
Local Open Scope string_scope.

(** [getTools(service, filter)]: [names] is [service.getTools()] and
    [getTool] is [service.getTool]. *)
Definition getTools (Tool : Type) (names : list string)
    (getTool : string -> Tool) (filter : string -> bool) : list Tool :=
  map getTool (List.filter filter names).

(** The filter the browsing chain provider passes to [getTools]. *)
Definition browsingFilter (name : string) : bool :=
  (name =? "search") || (name =? "web-browser") || (name =? "puppeteer-browser").

End SearchService.

(** ** Server-sent events *)

Module Sse.
Import JS.
Local Open Scope string_scope.

(** [s.split('\n\n')]: the pieces between the occurrences of two line
    feeds, found from the left. *)
Definition consHead (c : ascii) (pieces : list string) : list string :=
  match pieces with
  | [] => [String c EmptyString]
  | piece :: rest => String c piece :: rest
  end.

Fixpoint split (s : string) : list string :=
  match s with
  | EmptyString => [EmptyString]
  | String c s' =>
      match s' with
      | EmptyString => [String c EmptyString]
      | String d s'' =>
          if isLineFeed c && isLineFeed d then EmptyString :: split s''
          else consHead c (split s')
      end
  end.

(** [s.trim().length === 0]. *)
Definition blank (s : string) : bool := negb (truthy (trim s)).

(** [if (item.startsWith('data: ')) item = item.substring(6)]. *)
Definition stripData (item : string) : string :=
  if prefix "data: " item then sliceFrom 6 item else item.

(** The [for] loop over [splitted]: the items it yields. *)
Fixpoint itemsOf (splitted : list string) : list string :=
  match splitted with
  | [] => []
  | item :: rest =>
      if blank item then itemsOf rest else stripData item :: itemsOf rest
  end.

(** What one round of the [while] loop yields for the decoded chunk. *)
Definition chunkItems (decodeValue : string) : list string :=
  if blank decodeValue then [] else itemsOf (split decodeValue).

(** What [await reader.read()] gives, the chunk already decoded. *)
Inductive read : Type :=
| Chunk (decodeValue : string)
| Done
| ReadError (e : thrown).

(** The response: [ok], [status], [statusText], the text of
    [JSON.stringify(await response.json())] ([None] when [json()] rejects),
    and what the reader of the body delivers, read after read. *)
Record Response : Type := mkResponse {
  ok : bool;
  status : nat;
  statusText : string;
  json : option string;
  reads : list read
}.

(** What the generator throws: the [ChatHubError] with the code
    [NETWORK_ERROR] around an [Error], or what [reader.read()] threw. *)
Inductive failure : Type :=
| NetworkError (original : thrown)
| Rejected (e : thrown).

Inductive finish : Type :=
| Returned
| Threw (f : failure)
| Pending.   (* the observed reads ended before the stream did *)

(** A drained run of the generator: the values yielded, how it ended, and
    whether [reader.releaseLock()] was called. *)
Record Run : Type := mkRun {
  yielded : list string;
  finished : finish;
  released : bool
}.

Definition statusLine (response : Response) : string :=
  NilEmpty.string_of_uint (Nat.to_uint (status response)) ++ " "
  ++ statusText response ++ " "
  ++ match json response with Some text => text | None => "{}" end.

(** The [while (true)] loop. *)
Fixpoint pump (rs : list read) : list string * finish :=
  match rs with
  | [] => ([], Pending)
  | Done :: _ => (["[DONE]"], Returned)
  | ReadError e :: _ => ([], Threw (Rejected e))
  | Chunk decodeValue :: rest =>
      let (later, f) := pump rest in
      ((chunkItems decodeValue ++ later)%list, f)
  end.

(** [sseIterable(response)], drained by its consumer. *)
Definition sseIterable (response : Response) : Run :=
  if negb (ok response)
  then mkRun [] (Threw (NetworkError (ErrorObject "Error" (statusLine response))))
             false
  else let (ys, f) := pump (reads response) in
       mkRun ys f match f with Pending => false | _ => true end.

(** The pieces: the first starts with no more line feeds than the string
    does, and none holds two line feeds in a row. *)
Definition tidy (s : string) (pieces : list string) : Prop :=
  match pieces with
  | [] => False
  | p :: _ => leadingLineFeeds p <= leadingLineFeeds s
  end /\
  Forall (fun p => hasLineFeedRun 2 p = false) pieces.

End Sse.

(** * Theorems *)

(** ** ObjectLock *)

Module LockFacts.
Import Lock.

Lemma indexOf_None (id : nat) (q : list nat) :
  indexOf id q = None <-> ~ In id q.
Proof.
  induction q as [|x q IH]; simpl.
  - tauto.
  - destruct (Nat.eqb_spec x id) as [->|Hne].
    + split; [discriminate | intros H; exfalso; apply H; now left].
    + destruct (indexOf id q) as [i|]; simpl.
      * split; [discriminate|]. intros H. exfalso. apply H. right.
        destruct (in_dec Nat.eq_dec id q) as [Hin|Hnin]; [exact Hin|].
        apply IH in Hnin. discriminate.
      * split; [|reflexivity]. intros _ [Heq|Hin]; [congruence|].
        now apply IH in Hin.
Qed.

(** [splice(indexOf(id), 1)] takes out the first occurrence of [id]. *)
Lemma splice1_indexOf (id : nat) (q : list nat) (index : nat) :
  indexOf id q = Some index ->
  exists before after,
    q = before ++ id :: after /\ ~ In id before /\
    length before = index /\ splice1 index q = before ++ after.
Proof.
  revert index. induction q as [|x q IH]; simpl; intros index H.
  - discriminate.
  - destruct (Nat.eqb_spec x id) as [->|Hne].
    + injection H as <-. exists [], q. simpl. tauto.
    + destruct (indexOf id q) as [i|] eqn:Hi; simpl in H; [|discriminate].
      injection H as <-.
      destruct (IH i eq_refl) as (b & a & Hq & Hnin & Hlen & Hsp).
      exists (x :: b), a. simpl. rewrite Hsp, Hlen. subst q.
      repeat split; try reflexivity.
      intros [Heq|Hin]; [congruence | contradiction].
Qed.

(** C2.  [unlock(id)] throws the improper-unlock error exactly when the
    lock is not held or [id] is not in the queue, and it throws nothing
    else; when it throws, the flag, the queue and the counter are as
    before; when it succeeds, the flag is cleared and the queue loses the
    entry [id] (its first and only removal), the other entries keeping
    their order. *)
Theorem unlock_spec (id : nat) (s : ObjectLock) :
  (fst (unlock id s) = Throw ImproperUnlock <->
     _lock s = false \/ ~ In id (_queue s)) /\
  (forall e, fst (unlock id s) = Throw e ->
     e = ImproperUnlock /\ snd (unlock id s) = s) /\
  (fst (unlock id s) = Ok tt ->
     _lock s = true /\
     exists before after,
       _queue s = before ++ id :: after /\ ~ In id before /\
       snd (unlock id s) = mkLock false (before ++ after) (_currentId s)).
Proof.
  unfold unlock. destruct s as [l q c]; simpl.
  destruct l; simpl.
  - destruct (indexOf id q) as [index|] eqn:Hidx; simpl.
    + destruct (splice1_indexOf id q Hidx) as (b & a & Hq & Hnin & _ & Hsp).
      split; [|split].
      * split; [discriminate|].
        intros [H|H]; [discriminate|]. exfalso. apply H. rewrite Hq.
        apply in_or_app. right. now left.
      * intros e H. discriminate.
      * intros _. split; [reflexivity|].
        exists b, a. rewrite Hsp. auto.
    + apply indexOf_None in Hidx. split; [|split].
      * split; auto.
      * intros e H. injection H as <-. auto.
      * discriminate.
  - split; [|split].
    + split; auto.
    + intros e H. injection H as <-. auto.
    + discriminate.
Qed.

Example unlock_removes_middle :
  unlock 4 (mkLock true [3; 4; 5] 6) = (Ok tt, mkLock false [3; 5] 6).
Proof. reflexivity. Qed.

Example unlock_when_free_throws :
  unlock 0 (mkLock false [0] 1) = (Throw ImproperUnlock, mkLock false [0] 1).
Proof. reflexivity. Qed.

(** Only [lock()] moves the counter. *)
Lemma step_currentId (e : event) (s : System) :
  _currentId (obj (snd (step e s))) =
  match fst (step e s) with
  | Ticket id _ => S id
  | _ => _currentId (obj s)
  end /\
  match fst (step e s) with
  | Ticket id _ => id = _currentId (obj s)
  | _ => True
  end.
Proof.
  destruct s as [[l q c] w h]. destruct e as [|id|id]; simpl.
  - unfold lock_enter; simpl. destruct l; simpl; auto.
  - destruct (existsb (Nat.eqb id) w); simpl; auto.
    unfold lock_poll; simpl.
    destruct (head_differs id q || l); simpl; auto.
  - unfold unlock; simpl. destruct l; simpl; auto.
    destruct (indexOf id q); simpl; auto.
Qed.

Lemma tickets_seq (es : list event) (s : System) :
  tickets es s = seq (_currentId (obj s)) (length (tickets es s)).
Proof.
  revert s. induction es as [|e es IH]; intros s; simpl; [reflexivity|].
  destruct (step_currentId e s) as [Hc Hid].
  destruct (fst (step e s)) as [id st|st| |err|]; simpl;
    try (rewrite IH at 1; rewrite Hc; reflexivity).
  subst id. f_equal. rewrite IH at 1. now rewrite Hc.
Qed.

Lemma seq_increasing (a n : nat) : StronglySorted lt (seq a n).
Proof.
  revert a. induction n as [|n IH]; intros a; simpl; constructor.
  - apply IH.
  - apply Forall_forall. intros x Hx. apply in_seq in Hx. lia.
Qed.

(** C3.  [lock()] has no error path: every call is answered with a ticket
    id, the value of the counter at the call, and a call made while the
    lock is free returns at once.  Over any sequence of calls on one
    instance the ids handed out are consecutive from the counter's value,
    hence strictly increasing in call order and pairwise different. *)
Theorem lock_ids_increasing (es : list event) (s : System) :
  (exists st, fst (step CallLock s) = Ticket (_currentId (obj s)) st) /\
  (_lock (obj s) = false ->
     fst (step CallLock s) = Ticket (_currentId (obj s)) Acquired) /\
  tickets es s = seq (_currentId (obj s)) (length (tickets es s)) /\
  StronglySorted lt (tickets es s) /\
  NoDup (tickets es s).
Proof.
  split; [|split; [|split; [|split]]].
  - simpl. unfold lock_enter. destruct (_lock (obj s)); simpl; eauto.
  - intros Hfree. simpl. unfold lock_enter. simpl. now rewrite Hfree.
  - apply tickets_seq.
  - rewrite tickets_seq. apply seq_increasing.
  - rewrite tickets_seq. apply seq_NoDup.
Qed.

Example tickets_of_three_calls :
  tickets [CallLock; CallLock; CallUnlock 0; CallLock; Wake 1] initial
  = [0; 1; 2].
Proof. reflexivity. Qed.

(** *** Mutual exclusion and arrival order *)

Lemma head_differs_false (id : nat) (q : list nat) :
  head_differs id q = false -> exists q', q = id :: q'.
Proof.
  destruct q as [|x q]; simpl; [discriminate|].
  intros H. apply negb_false_iff in H. apply Nat.eqb_eq in H. subst. eauto.
Qed.

Lemma indexOf_In (id : nat) (q : list nat) :
  In id q -> exists index, indexOf id q = Some index.
Proof.
  intros Hin. destruct (indexOf id q) as [i|] eqn:H; [eauto|].
  apply indexOf_None in H. contradiction.
Qed.

Lemma step_exclusive (e : event) (s : System) :
  exclusive s -> proper [e] s = true -> exclusive (snd (step e s)).
Proof.
  destruct s as [[l q c] w h]. unfold exclusive; simpl.
  destruct e as [|id|id]; simpl.
  - unfold lock_enter; simpl.
    destruct h as [|h1 [|h2 h]]; intros Hx _; try contradiction.
    + subst l. simpl. split; [reflexivity|]. apply in_or_app. right. now left.
    + destruct Hx as [-> Hin]. simpl. split; [reflexivity|].
      apply in_or_app. now left.
  - intros Hx _. destruct (existsb (Nat.eqb id) w); simpl; [|exact Hx].
    unfold lock_poll; simpl.
    destruct (head_differs id q) eqn:Hd; simpl; [exact Hx|].
    destruct l; simpl; [exact Hx|].
    destruct h as [|h1 [|h2 h]]; simpl; try contradiction.
    + split; [reflexivity|].
      apply head_differs_false in Hd. destruct Hd as [q' ->]. now left.
    + destruct Hx; discriminate.
  - rewrite andb_true_r.
    destruct h as [|h1 [|h2 h]]; simpl; intros Hx Hp; try contradiction.
    + discriminate.
    + rewrite orb_false_r in Hp. apply Nat.eqb_eq in Hp. subst h1.
      destruct Hx as [-> Hin]. unfold unlock; simpl.
      destruct (indexOf_In _ _ Hin) as [index ->]. simpl.
      rewrite Nat.eqb_refl. reflexivity.
Qed.

(** When [unlock(id)] is only ever called by the ticket that holds the
    lock, no two tickets hold it at once. *)
Lemma run_exclusive (es : list event) (s : System) :
  exclusive s -> proper es s = true -> exclusive (run es s).
Proof.
  revert s. induction es as [|e es IH]; intros s Hx Hp; simpl; [exact Hx|].
  simpl in Hp. apply andb_true_iff in Hp. destruct Hp as [He Hes].
  apply IH; [|exact Hes].
  apply step_exclusive; [exact Hx|]. simpl. now rewrite He.
Qed.

Lemma proper_use_one_holder (es : list event) :
  proper es initial = true -> length (holders (run es initial)) <= 1.
Proof.
  intros Hp. assert (Hx : exclusive (run es initial)).
  { apply run_exclusive; [reflexivity | exact Hp]. }
  unfold exclusive in Hx.
  destruct (holders (run es initial)) as [|h1 [|h2 h]]; simpl;
    [lia | lia | contradiction].
Qed.

(** C1 (the code departs from the claim).  Ticket 0 takes the lock, ticket 1
    queues behind it and sleeps; ticket 0 is released; a third [lock()]
    call arrives before ticket 1 wakes up.  It finds [_lock] false, skips
    the queue test and takes the lock: ticket 2 holds the lock while the
    older ticket 1 is still queued, and ticket 1 then finds the lock held
    when it wakes.  Every [unlock] in this run is made by the holder. *)
Theorem late_caller_overtakes_waiting_ticket :
  let es := [CallLock; CallLock; CallUnlock 0; CallLock] in
  proper es initial = true /\
  run es initial = mkSystem (mkLock true [1; 2] 3) [1] [2] /\
  fst (step (Wake 1) (run es initial)) = Polled Waiting.
Proof. repeat split. Qed.

(** The same run with the wake-up of ticket 1 before the late call serves
    the tickets in arrival order. *)
Example waiting_ticket_served_when_woken_first :
  run [CallLock; CallLock; CallUnlock 0; Wake 1; CallLock] initial
  = mkSystem (mkLock true [1; 2] 3) [2] [1].
Proof. reflexivity. Qed.

(** [unlock] of a ticket that is only waiting clears the flag too: the next
    caller takes the lock although ticket 0 was never released. *)
Example unlock_of_waiting_ticket_frees_lock :
  run [CallLock; CallLock; CallUnlock 1; CallLock] initial
  = mkSystem (mkLock true [0; 2] 3) [1] [0; 2].
Proof. reflexivity. Qed.

(** *** [runLocked] *)

Lemma lock_wait_holding (id : nat) (sched : interference) (s s1 s2 : ObjectLock) :
  lock_wait id sched s = (Some s1, s2) ->
  _lock s2 = true /\ exists q', _queue s2 = id :: q'.
Proof.
  revert s. induction sched as [|others sched IH]; intros s; simpl.
  - discriminate.
  - unfold lock_poll.
    destruct (head_differs id (_queue (others s))) eqn:Hd; simpl.
    + apply IH.
    + destruct (_lock (others s)); simpl; [apply IH|].
      intros H. injection H as _ <-. simpl. split; [reflexivity|].
      now apply head_differs_false.
Qed.

(** When [lock()] returns, the flag is set and the ticket is queued. *)
Lemma lock_holding (sched : interference) (s s1 : ObjectLock) (id : nat) :
  lock sched s = (Some id, s1) -> _lock s1 = true /\ In id (_queue s1).
Proof.
  unfold lock, lock_enter. simpl. destruct (_lock s) eqn:Hl; simpl.
  - destruct (lock_wait (_currentId s) sched
                (mkLock true (_queue s ++ [_currentId s]) (S (_currentId s))))
      as [[a|] s2] eqn:Hw; [|discriminate].
    intros H. injection H as <- <-.
    apply lock_wait_holding in Hw. destruct Hw as [Ht [q' Hq]].
    split; [exact Ht|]. rewrite Hq. now left.
  - intros H. injection H as <- <-. simpl. split; [reflexivity|].
    apply in_or_app. right. now left.
Qed.

(** A call made while the lock is free does not wait. *)
Lemma lock_free_returns (sched : interference) (s : ObjectLock) :
  _lock s = false ->
  lock sched s =
  (Some (_currentId s),
   mkLock true (_queue s ++ [_currentId s]) (S (_currentId s))).
Proof. intros H. unfold lock, lock_enter. simpl. now rewrite H. Qed.

(** A [lock()] that sleeps through the whole schedule has not returned. *)
Lemma lock_wait_asleep (id : nat) (sched : interference) (s : ObjectLock) :
  asleep id sched s = true -> lock_wait id sched s = (None, afterSleeps sched s).
Proof.
  revert s. induction sched as [|f sched IH]; intros s Ha; [reflexivity|].
  simpl in Ha. apply andb_true_iff in Ha. destruct Ha as [Hc Ha].
  simpl. unfold lock_poll. rewrite Hc. apply IH. exact Ha.
Qed.

(** A [lock()] that sleeps through [pre] and wakes up after one more sleep
    to a free lock with its ticket at the head of the queue returns
    then. *)
Lemma lock_wait_released (id : nat) (pre : interference)
    (release : ObjectLock -> ObjectLock) (post : interference) (s : ObjectLock) :
  asleep id pre s = true ->
  let s' := release (afterSleeps pre s) in
  _lock s' = false -> head_differs id (_queue s') = false ->
  lock_wait id (pre ++ release :: post) s
  = (Some (mkLock true (_queue s') (_currentId s')),
     mkLock true (_queue s') (_currentId s')).
Proof.
  revert s. induction pre as [|f pre IH]; intros s Ha; simpl.
  - intros Hfree Hhead. unfold lock_poll. now rewrite Hhead, Hfree.
  - simpl in Ha. apply andb_true_iff in Ha. destruct Ha as [Hc Ha].
    intros Hfree Hhead. unfold lock_poll at 1. rewrite Hc.
    apply IH; [exact Ha | exact Hfree | exact Hhead].
Qed.

(** While the flag is set, what tasks that call no [unlock] do leaves the
    flag set and a queued ticket queued. *)
Lemma perform_keeps_holder (l : list action) (s : ObjectLock) (id : nat) :
  unlockFree l = true -> _lock s = true -> In id (_queue s) ->
  _lock (perform l s) = true /\ In id (_queue (perform l s)).
Proof.
  revert s. induction l as [|a l IH]; intros s Hu Hl Hin; [auto|].
  simpl in Hu. apply andb_true_iff in Hu. destruct Hu as [Ha Hu].
  unfold perform. simpl. apply (IH _ Hu).
  - destruct a as [|id'|id']; simpl; [| |discriminate].
    + unfold lock_enter. simpl. now rewrite Hl.
    + unfold lock_poll. now rewrite Hl, orb_true_r.
  - destruct a as [|id'|id']; simpl; [| |discriminate].
    + unfold lock_enter. simpl. rewrite Hl. simpl. apply in_or_app. now left.
    + unfold lock_poll. now rewrite Hl, orb_true_r.
Qed.

(** C4.  [runLocked(func)] takes the lock: on a free lock [lock()] returns
    at once; on a held lock it returns after the first sleep that ends
    with the lock free and the ticket at the head of the queue, and as
    long as no sleep ends so, [runLocked] is suspended and [func] has not
    run.  Once [lock()] has returned ticket [id], [func] is run, and while
    [func] is awaited the other tasks may call [lock()] and wake up, but
    call no [unlock]: the flag stays set and [id] stays queued.  When
    [func] resolves, [unlock(id)] succeeds, the flag is cleared, [id]
    leaves the queue and the result of [func] is returned.  When [func]
    rejects, the rejection is passed on and the lock is not released: flag
    set, [id] queued. *)
Theorem runLocked_spec (T W : Type) (func : W -> outcome T * W)
    (sched : interference) (meanwhile : list action) (s : ObjectLock) (w : W) :
  let id := _currentId s in
  let entered := mkLock true (_queue s ++ [id]) (S id) in
  (_lock s = false -> lock sched s = (Some id, entered)) /\
  (forall pre release post,
      _lock s = true -> sched = pre ++ release :: post ->
      asleep id pre entered = true ->
      let s' := release (afterSleeps pre entered) in
      _lock s' = false -> head_differs id (_queue s') = false ->
      lock sched s = (Some id, mkLock true (_queue s') (_currentId s'))) /\
  (forall during,
      _lock s = true -> asleep id sched entered = true ->
      lock sched s = (None, afterSleeps sched entered) /\
      runLocked func sched during s w
      = (Suspended, afterSleeps sched entered, w)) /\
  (forall id' s1,
      lock sched s = (Some id', s1) -> unlockFree meanwhile = true ->
      let s2 := perform meanwhile s1 in
      _lock s2 = true /\ In id' (_queue s2) /\
      match func w with
      | (Ok result, w') =>
          exists front back,
            _queue s2 = front ++ id' :: back /\ ~ In id' front /\
            runLocked func sched (perform meanwhile) s w =
            (Returns result, mkLock false (front ++ back) (_currentId s2),
             w')
      | (Throw e, w') =>
          runLocked func sched (perform meanwhile) s w = (Throws e, s2, w')
      end).
Proof.
  intros id entered.
  split; [apply lock_free_returns|]. split; [|split].
  - intros pre release post Hl -> Ha s' Hfree Hhead.
    unfold lock, lock_enter. simpl. rewrite Hl.
    fold id. fold entered.
    rewrite (@lock_wait_released id pre release post entered Ha Hfree Hhead).
    reflexivity.
  - intros during Hl Ha.
    assert (Hlock : lock sched s = (None, afterSleeps sched entered)).
    { unfold lock, lock_enter. simpl. rewrite Hl. fold id. fold entered.
      now rewrite (lock_wait_asleep _ _ _ Ha). }
    split; [exact Hlock|]. unfold runLocked. now rewrite Hlock.
  - intros id' s1 Hlock Hu s2.
    destruct (lock_holding _ _ Hlock) as [Hheld1 Hin1].
    destruct (@perform_keeps_holder meanwhile s1 id' Hu Hheld1 Hin1)
      as [Hheld Hin].
    fold s2 in Hheld, Hin.
    split; [exact Hheld|]. split; [exact Hin|].
    unfold runLocked. rewrite Hlock. fold s2.
    destruct (func w) as [[result|e] w']; [|reflexivity].
    destruct (indexOf_In _ _ Hin) as [index Hi].
    destruct (splice1_indexOf _ _ Hi) as (b & a & Hq & Hnin & _ & Hsp).
    exists b, a. split; [exact Hq|]. split; [exact Hnin|].
    unfold unlock. rewrite Hheld, Hi. simpl. now rewrite Hsp.
Qed.

(** Ticket 0 holds the lock and ticket 1 sleeps.  A task calls
    [runLocked] and sleeps as ticket 2: through the release of ticket 0,
    which leaves ticket 1 at the head of the queue, through the wake-up of
    ticket 1, and until ticket 1 is released.  It then holds the lock.
    While its [func] runs, another task calls [lock()] and sleeps as
    ticket 3.  [func] rejects: the lock stays held by ticket 2. *)
Lemma runLocked_spec_witness :
  let sched :=
    [fun s => snd (unlock 0 s); fun s => snd (lock_poll 1 s);
     fun s => snd (unlock 1 s)] in
  lock sched (mkLock true [0; 1] 2) = (Some 2, mkLock true [2] 3) /\
  lock (firstn 2 sched) (mkLock true [0; 1] 2) = (None, mkLock true [1; 2] 3) /\
  runLocked (fun w : nat => (@Throw nat (ErrorObject "Error" "boom"), S w))
            sched (perform [OtherLock; OtherWake 3]) (mkLock true [0; 1] 2) 7
  = (Throws (ErrorObject "Error" "boom"), mkLock true [2; 3] 4, 8).
Proof.
  cbv zeta.
  pose proof (@runLocked_spec nat nat
                (fun w => (Throw (ErrorObject "Error" "boom"), S w))
                [fun s => snd (unlock 0 s); fun s => snd (lock_poll 1 s);
                 fun s => snd (unlock 1 s)]
                [OtherLock; OtherWake 3] (mkLock true [0; 1] 2) 7) as H.
  cbv zeta in H. destruct H as (_ & Hwait & _ & Hrun).
  pose proof (@runLocked_spec nat nat
                (fun w => (Throw (ErrorObject "Error" "boom"), S w))
                [fun s => snd (unlock 0 s); fun s => snd (lock_poll 1 s)]
                [] (mkLock true [0; 1] 2) 7) as H'.
  cbv zeta in H'. destruct H' as (_ & _ & Hsleep & _).
  assert (Hlock : lock [fun s => snd (unlock 0 s); fun s => snd (lock_poll 1 s);
                        fun s => snd (unlock 1 s)]
                       (mkLock true [0; 1] 2) = (Some 2, mkLock true [2] 3)).
  { exact (Hwait [fun s => snd (unlock 0 s); fun s => snd (lock_poll 1 s)]
                 (fun s => snd (unlock 1 s)) []
                 eq_refl eq_refl eq_refl eq_refl eq_refl). }
  split; [exact Hlock|]. split.
  - exact (proj1 (Hsleep (fun s => s) eq_refl eq_refl)).
  - exact (proj2 (proj2 (Hrun 2 (mkLock true [2] 3) Hlock eq_refl))).
Defined.

Example runLocked_after_waiting :
  runLocked (fun w : nat => (Ok (w + 1), w))
            [fun s => s; fun s => snd (unlock 0 s)]
            (perform [OtherLock; OtherLock; OtherWake 2])
            (mkLock true [0] 1) 5
  = (Returns 6, mkLock false [2; 3] 4, 5).
Proof. reflexivity. Qed.

Example runLocked_still_asleep :
  runLocked (fun w : nat => (Ok w, w)) [fun s => s] (fun s => s)
            (mkLock true [0] 1) 5
  = (Suspended, mkLock true [0; 1] 2, 5).
Proof. reflexivity. Qed.

(** When another task calls [unlock] for the ticket while [func] runs, the
    [unlock(id)] of [runLocked] throws and the result of [func] is lost. *)
Example runLocked_unlocked_by_another_task :
  runLocked (fun w : nat => (Ok (w + 1), w)) []
            (perform [OtherLock; OtherUnlock 0]) fresh 5
  = (Throws ImproperUnlock, mkLock false [1] 2, 5).
Proof. reflexivity. Qed.

End LockFacts.

(** ** The text of a page *)

Module TextFacts.
Import JS Browser.
Local Open Scope string_scope.

Lemma append_assoc (x y z : string) : (x ++ y) ++ z = x ++ (y ++ z).
Proof. induction x as [|c x IH]; simpl; [reflexivity | now rewrite IH]. Qed.

Lemma isLineFeed_isWhiteSpace (c : ascii) :
  isLineFeed c = true -> isWhiteSpace c = true.
Proof.
  unfold isLineFeed, isWhiteSpace. intros H. apply Nat.eqb_eq in H.
  rewrite H. reflexivity.
Qed.

Lemma isLineFeed_LF : isLineFeed "010"%char = true.
Proof. reflexivity. Qed.

Lemma endsWithWhiteSpace_lastChar (s : string) :
  endsWithWhiteSpace s =
  match lastChar s with Some c => isWhiteSpace c | None => false end.
Proof.
  induction s as [|c s IH]; [reflexivity|].
  destruct s as [|d s]; [reflexivity|]. exact IH.
Qed.

Lemma lastChar_app (x : string) (c : ascii) (y : string) :
  lastChar (x ++ String c y) = lastChar (String c y).
Proof.
  induction x as [|d x IH]; [reflexivity|].
  change (lastChar (String d (x ++ String c y)) = lastChar (String c y)).
  destruct (x ++ String c y) as [|e z] eqn:E.
  - destruct x; discriminate.
  - rewrite <- IH. reflexivity.
Qed.

Lemma lastChar_cons (c : ascii) (s : string) (d : ascii) :
  lastChar s = Some d -> lastChar (String c s) = Some d.
Proof. destruct s; [discriminate|]. auto. Qed.

(** [trimEnd] leaves no white space at the end. *)
Lemma lastChar_trimEnd (s : string) (c : ascii) :
  lastChar (trimEnd s) = Some c -> isWhiteSpace c = false.
Proof.
  revert c. induction s as [|d s IH]; intros c; simpl; [discriminate|].
  destruct (trimEnd s) as [|e r] eqn:E.
  - destruct (isWhiteSpace d) eqn:Hd; simpl; [discriminate|].
    intros H. injection H as <-. exact Hd.
  - intros H. apply IH. exact H.
Qed.

Lemma startsWithWhiteSpace_trimStart (s : string) :
  startsWithWhiteSpace (trimStart s) = false.
Proof.
  induction s as [|c s IH]; simpl; [reflexivity|].
  destruct (isWhiteSpace c) eqn:Hc; [exact IH|]. simpl. exact Hc.
Qed.

Lemma startsWithWhiteSpace_trimEnd (s : string) :
  startsWithWhiteSpace s = false -> startsWithWhiteSpace (trimEnd s) = false.
Proof.
  destruct s as [|c s]; simpl; [reflexivity|]. intros Hc.
  destruct (trimEnd s); [rewrite Hc|]; simpl; auto.
Qed.

Lemma collapsedRun_cases (run : nat) :
  collapsedRun run = "" \/ collapsedRun run = LF \/ collapsedRun run = LF ++ LF.
Proof.
  destruct run as [|[|[|run]]]; cbv; auto.
Qed.

Lemma startsWithWhiteSpace_collapse (s : string) :
  startsWithWhiteSpace s = false ->
  startsWithWhiteSpace (collapseLineFeeds s) = false.
Proof.
  unfold collapseLineFeeds. destruct s as [|c s]; simpl; [reflexivity|].
  intros Hc. destruct (isLineFeed c) eqn:Hl.
  - apply isLineFeed_isWhiteSpace in Hl. congruence.
  - simpl. exact Hc.
Qed.

Lemma lastChar_collapseFrom (s : string) (run : nat) (c : ascii) :
  lastChar s = Some c -> isLineFeed c = false ->
  lastChar (collapseFrom run s) = Some c.
Proof.
  revert run. induction s as [|d s IH]; intros run Hlast Hc; [discriminate|].
  destruct s as [|e s].
  - injection Hlast as ->. simpl. rewrite Hc. apply lastChar_app.
  - change (lastChar (String e s) = Some c) in Hlast.
    change (collapseFrom run (String d (String e s))) with
      (if isLineFeed d then collapseFrom (S run) (String e s)
       else collapsedRun run ++ String d (collapseFrom 0 (String e s))).
    destruct (isLineFeed d).
    + now apply IH.
    + rewrite lastChar_app. apply lastChar_cons. now apply IH.
Qed.

Lemma leadingLineFeeds_collapsedRun (run : nat) (c : ascii) (s : string) :
  isLineFeed c = false ->
  hasLineFeedRun 3 (collapsedRun run ++ String c s) = hasLineFeedRun 3 s.
Proof.
  intros Hc.
  destruct (collapsedRun_cases run) as [-> | [-> | ->]];
    cbn [append LF hasLineFeedRun leadingLineFeeds];
    rewrite ?isLineFeed_LF, Hc; reflexivity.
Qed.

Lemma hasLineFeedRun_collapseFrom (s : string) (run : nat) :
  hasLineFeedRun 3 (collapseFrom run s) = false.
Proof.
  revert run. induction s as [|c s IH]; intros run.
  - simpl. destruct (collapsedRun_cases run) as [-> | [-> | ->]]; reflexivity.
  - simpl. destruct (isLineFeed c) eqn:Hc; [apply IH|].
    rewrite leadingLineFeeds_collapsedRun by exact Hc. apply IH.
Qed.


Lemma collapseFrom_cut (x : string) (c : ascii) (z : string) (run : nat) :
  isLineFeed c = false ->
  collapseFrom run (x ++ String c z)
  = collapseFrom run (x ++ String c "") ++ collapseFrom 0 z.
Proof.
  intros Hc. revert run. induction x as [|d x IH]; intros run; simpl.
  - rewrite Hc. change (collapsedRun 0) with "".
    rewrite append_assoc. reflexivity.
  - destruct (isLineFeed d); [apply IH|].
    rewrite IH. rewrite !append_assoc. reflexivity.
Qed.

Lemma collapseFrom_run (n run : nat) (d : ascii) (y : string) :
  isLineFeed d = false ->
  collapseFrom run (repeat LF n ++ String d y)
  = collapsedRun (run + n) ++ String d (collapseFrom 0 y).
Proof.
  intros Hd. revert run. induction n as [|n IH]; intros run; simpl.
  - rewrite Hd, Nat.add_0_r. reflexivity.
  - rewrite IH. now rewrite Nat.add_succ_r.
Qed.

Lemma collapsedRun_long (n : nat) : 3 <= n -> collapsedRun n = LF ++ LF.
Proof.
  intros H. unfold collapsedRun.
  destruct (Nat.leb_spec 3 n); [reflexivity | lia].
Qed.

(** C8.  The text handed back by the page callback of [getPageText], for
    every DOM and every URL resolver, neither starts nor ends with white
    space and holds no three consecutive line feeds; every run of three or
    more line feeds of the trimmed walk shows up as exactly two. *)
Theorem structuredText_shape (resolve : string -> option string) (body : Node) :
  let out := structuredText resolve body in
  startsWithWhiteSpace out = false /\
  endsWithWhiteSpace out = false /\
  hasLineFeedRun 3 out = false /\
  (forall x c n d y,
      isLineFeed c = false -> isLineFeed d = false -> 3 <= n ->
      trim (processNode resolve body 0)
      = x ++ String c (repeat LF n ++ String d y) ->
      out = collapseLineFeeds (x ++ String c "")
            ++ LF ++ LF ++ collapseLineFeeds (String d y)).
Proof.
  unfold structuredText. set (walk := processNode resolve body 0).
  cbv zeta. split; [|split; [|split]].
  - apply startsWithWhiteSpace_collapse. unfold trim.
    apply startsWithWhiteSpace_trimEnd, startsWithWhiteSpace_trimStart.
  - rewrite endsWithWhiteSpace_lastChar.
    destruct (lastChar (collapseLineFeeds (trim walk))) as [c|] eqn:Hc;
      [|reflexivity].
    destruct (lastChar (trim walk)) as [d|] eqn:Hd.
    + pose proof (lastChar_trimEnd _ Hd) as Hws.
      assert (Hlf : isLineFeed d = false).
      { destruct (isLineFeed d) eqn:E; [|reflexivity].
        apply isLineFeed_isWhiteSpace in E. congruence. }
      unfold collapseLineFeeds in Hc.
      rewrite (lastChar_collapseFrom _ 0 Hd Hlf) in Hc.
      injection Hc as <-. exact Hws.
    + destruct (trim walk) as [|e r]; [discriminate|].
      exfalso. clear Hc. revert e Hd. induction r as [|f r IH]; intros e Hd.
      * discriminate.
      * apply (IH f). exact Hd.
  - apply hasLineFeedRun_collapseFrom.
  - intros x c n d y Hc Hd Hn ->. unfold collapseLineFeeds.
    rewrite collapseFrom_cut by exact Hc.
    rewrite collapseFrom_run by exact Hd.
    rewrite collapsedRun_long by exact Hn.
    change (collapseFrom 0 (String d y)) with
      (if isLineFeed d then collapseFrom 1 y
       else collapsedRun 0 ++ String d (collapseFrom 0 y)).
    rewrite Hd. change (collapsedRun 0) with "".
    reflexivity.
Qed.

Example structuredText_blank_blocks :
  processNode (fun _ => None) Sample.blanks 0
  = " a" ++ repeat LF 7 ++ " b"
  /\ structuredText (fun _ => None) Sample.blanks = "a" ++ LF ++ LF ++ " b".
Proof. split; reflexivity. Qed.

End TextFacts.

(** ** The links of a page *)

Module LinkFacts.
Import JS Browser.
Local Open Scope string_scope.

Section Classify.
Variable parse : string -> option URL.
Variable invalid : thrown.
Variable currentHost : string.

Let entries := entriesOf parse currentHost.

Let parsable := parsable parse.

Lemma entriesOf_cons (b : Bucket) (a : Anchor) (l : list Anchor) :
  entries b (a :: l) =
  match bucketOfAnchor parse currentHost a with
  | Some b' => if sameBucket b b' then entryOf a :: entries b l else entries b l
  | None => entries b l
  end.
Proof.
  unfold entries, entriesOf. simpl.
  destruct (bucketOfAnchor parse currentHost a) as [b'|]; [|reflexivity].
  destruct (sameBucket b b'); reflexivity.
Qed.

Lemma forEach_entries (l : list Anchor) (u : UrlStructure) :
  parsable l ->
  forEach parse invalid currentHost l u =
  Ok (mkUrlStructure (search u ++ entries Search l)
                     (navigation u ++ entries Navigation l)
                     (external u ++ entries External l)
                     (other u ++ entries Other l)).
Proof.
  revert u. induction l as [|a l IH]; intros u Hp.
  - simpl. unfold entries, entriesOf. simpl. rewrite !app_nil_r.
    destruct u; reflexivity.
  - assert (Hl : parsable l) by (intros x Hx; apply Hp; now right).
    assert (Ha := Hp a (or_introl eq_refl)).
    simpl. rewrite !entriesOf_cons. unfold visit, bucketOfAnchor.
    destruct (truthy (a_href a)); simpl.
    + destruct (parse (a_href a)) as [url|]; [|now elim Ha]. simpl.
      rewrite IH by exact Hl.
      destruct (bucketOf currentHost url a); simpl;
        rewrite <- ?app_assoc; reflexivity.
    + now rewrite IH.
Qed.

Lemma entries_count (l : list Anchor) :
  parsable l ->
  length (entries Search l) + length (entries Navigation l)
  + length (entries External l) + length (entries Other l)
  = length (filter (fun a => truthy (a_href a)) l).
Proof.
  induction l as [|a l IH]; intros Hp; [reflexivity|].
  assert (Hl : parsable l) by (intros x Hx; apply Hp; now right).
  assert (Ha := Hp a (or_introl eq_refl)).
  rewrite !entriesOf_cons. simpl. unfold bucketOfAnchor.
  destruct (truthy (a_href a)); [|now apply IH].
  destruct (parse (a_href a)) as [url|]; [|now elim Ha]. simpl.
  specialize (IH Hl).
  destruct (bucketOf currentHost url a); simpl; lia.
Qed.

End Classify.

(** X22.  When every link with a non-empty [href] has a parsable one, the
    callback of [getStructuredUrls] puts the entry [linkText: href] of each
    such link into one bucket and keeps document order inside a bucket.
    The bucket is found in this order: another hostname than the page's,
    external; then a path containing [search] or a query containing [q=],
    search; then inside a [nav] or matching [header a, footer a],
    navigation; else other.  The handler returns the serialized buckets. *)
Theorem getStructuredUrls_buckets (World Page Store : Type)
    (env : Env World Page Store) (t : Tool Page) (w w' : World)
    (handle : Page) (doc : Document) :
  page t = Some handle ->
  document env handle w = (Ok doc, w') ->
  parsable (parseUrl env) (anchors doc) ->
  let entries := entriesOf (parseUrl env) (location_hostname doc) in
  let buckets :=
    mkUrlStructure (entries Search (anchors doc))
                   (entries Navigation (anchors doc))
                   (entries External (anchors doc))
                   (entries Other (anchors doc)) in
  getStructuredUrls env t w = (Ok (stringify env buckets), t, w') /\
  (forall a b,
      In a (anchors doc) ->
      bucketOfAnchor (parseUrl env) (location_hostname doc) a = Some b ->
      In (entryOf a) (entries b (anchors doc))) /\
  length (search buckets) + length (navigation buckets)
  + length (external buckets) + length (other buckets)
  = length (filter (fun a => truthy (a_href a)) (anchors doc)) /\
  (forall a, entryOf a = trim (a_textContent a) ++ ": " ++ a_href a) /\
  (forall host url a,
      bucketOf host url a =
      if negb (url_hostname url =? host) then External
      else if includes "search" (url_pathname url)
              || includes "q=" (url_search url) then Search
      else if a_closest_nav a || a_matches_header_footer a then Navigation
      else Other).
Proof.
  intros Hpage Hdoc Hparse entries buckets. split; [|split; [|split; [|split]]].
  - unfold getStructuredUrls, getStructuredUrlsTry, tryCatch, bind, getPage,
      await.
    rewrite Hpage, Hdoc. unfold classifyLinks.
    rewrite forEach_entries by exact Hparse. reflexivity.
  - intros a b Hin Hb. unfold entries, entriesOf. apply in_map.
    apply filter_In. split; [exact Hin|]. rewrite Hb. now destruct b.
  - apply entries_count. exact Hparse.
  - reflexivity.
  - intros host url a. unfold bucketOf.
    destruct (url_hostname url =? host); reflexivity.
Qed.

Import Sample.

Lemma getStructuredUrls_buckets_witness :
  page (mkTool (Some 1) 0%N 30000%N 300000%N) = Some 1 /\
  document sampleEnv 1 5%N = (Ok sampleDocument, 6%N) /\
  parsable (parseUrl sampleEnv) (anchors sampleDocument) /\
  getStructuredUrls sampleEnv (mkTool (Some 1) 0 30000 300000) 5%N
  = (Ok ("search=[information: https://example.com/search?q=rocq; "
         ++ "Research: https://example.com/research] "
         ++ "navigation=[About: https://example.com/about] "
         ++ "external=[IANA: https://www.iana.org/domains] "
         ++ "other=[Terms: https://example.com/terms]"),
     mkTool (Some 1) 0 30000 300000, 6%N).
Proof.
  assert (Hp : parsable (parseUrl sampleEnv) (anchors sampleDocument)).
  { intros a Hin Ht.
    repeat (destruct Hin as [<- | Hin]; [vm_compute; discriminate|]).
    destruct Hin. }
  split; [reflexivity|]. split; [reflexivity|]. split; [exact Hp|].
  exact (proj1 (@getStructuredUrls_buckets N nat (list string) sampleEnv
                  (mkTool (Some 1) 0 30000 300000) 5%N 6%N 1 sampleDocument
                  eq_refl eq_refl Hp)).
Defined.

(** C9 (the code departs from the claim).  A page with three links, the
    second of which has an [href] that [new URL] rejects.  The callback
    throws at the second link and [get-structured-urls] returns the error
    text: no link is put into a bucket, although the first link is a
    same-host link inside a [nav] and the third a same-host link, which
    the callback files under navigation and other when the second link is
    not on the page.  The link walk of [getPageText] catches the same
    failure for the one link and goes on. *)
Theorem one_bad_link_loses_the_listing :
  let about := mkAnchor "https://example.com/about" "About" true false in
  let broken := mkAnchor "http://" "broken" false false in
  let terms := mkAnchor "https://example.com/terms" "Terms" false false in
  let invalid := ErrorObject "TypeError" "Invalid URL" in
  anchors brokenLinkDocument = [about; broken; terms] /\
  location_hostname brokenLinkDocument = "example.com" /\
  truthy (a_href broken) = true /\
  parseUrl brokenLinkEnv (a_href broken) = None /\
  bucketOfAnchor (parseUrl brokenLinkEnv) "example.com" about
  = Some Navigation /\
  bucketOfAnchor (parseUrl brokenLinkEnv) "example.com" terms = Some Other /\
  classifyLinks (parseUrl brokenLinkEnv) invalid "example.com"
    [about; broken; terms] = Throw invalid /\
  _call brokenLinkEnv "get-structured-urls"
    (mkTool (Some 1) 0%N 30000%N 300000%N) 5%N
  = (Ok "Error getting structured URLs: Invalid URL",
     mkTool (Some 1) 5%N 30000%N 300000%N, 6%N) /\
  classifyLinks (parseUrl brokenLinkEnv) invalid "example.com" [about; terms]
  = Ok (mkUrlStructure [] ["About: https://example.com/about"] []
          ["Terms: https://example.com/terms"]) /\
  structuredText (fun _ => None)
    (ElementNode "BODY" None ""
       [ElementNode "A" (Some "http://") "" [TextNode "broken"];
        ElementNode "A" (Some "/terms") "" [TextNode "Terms"]])
  = "[broken](http://) [Terms](/terms)".
Proof. cbv zeta. repeat split. Qed.

End LinkFacts.

(** ** The tool *)

Module ToolFacts.
Import JS Browser.
Local Open Scope string_scope.

Section WithEnv.
Variables World Page Store : Type.
Variable env : Env World Page Store.

Lemma report_reported (start : string) (e : thrown) (t : Tool Page) (w : World) :
  report env start e t w = (reported env start e, t, w).
Proof. destruct e; reflexivity. Qed.

Lemma catchBlock_converted (v : Verb) (e : thrown) (t : Tool Page) (w : World) :
  catchBlock env v e t w = (converted env v e, t, w).
Proof. destruct v, e; reflexivity. Qed.

Lemma tryCatch_parts (body : M World Page string) (v : Verb)
    (t : Tool Page) (w : World) :
  tryCatch body (catchBlock env v) t w =
  match body t w with
  | (Ok text, t1, w1) => (Ok text, t1, w1)
  | (Throw e, t1, w1) => (converted env v e, t1, w1)
  end.
Proof.
  unfold tryCatch. destruct (body t w) as [[[text|e] t1] w1]; [reflexivity|].
  apply catchBlock_converted.
Qed.

(** A handler is its [try] block, then what the block returns; a value
    thrown inside the [try] block goes to the [catch] block. *)
Lemma handler_parts (v : Verb) (params : string) (t : Tool Page) (w : World) :
  handler env v params t w =
  match tryBlock env v params t w with
  | (Ok text, t1, w1) => returned env v params text t1 w1
  | (Throw e, t1, w1) => (converted env v e, t1, w1)
  end.
Proof.
  destruct v; simpl.
  - apply (tryCatch_parts (openPageTry env params) Open).
  - unfold summarizePage, bind, tryCatch.
    destruct (getPageText env params t w) as [[[text|e] t1] w1]; simpl.
    + reflexivity.
    + rewrite report_reported. destruct e; reflexivity.
  - apply (tryCatch_parts (getPageTextTry env params) GetText).
  - apply (tryCatch_parts (selectDivTry env params) Select).
  - apply (tryCatch_parts (goToPreviousPageTry env) Previous).
  - apply (tryCatch_parts (getHtmlTry env) GetHtml).
  - apply (tryCatch_parts (getStructuredUrlsTry env) GetStructuredUrls).
Qed.

Lemma member_own (action : string) (v : Verb) :
  own action actions = Some v -> member action = Handler v.
Proof. unfold member. now intros ->. Qed.

Lemma call_route (input action params : string) :
  route input = (action, params) ->
  _call env input
  = tryCatch (bind (touch env) (fun _ => dispatch env action params))
             (@callCatch World Page).
Proof. unfold _call. now intros ->. Qed.

(** C5 (amended).  With a space in the input, the token before the first
    space, trimmed and lowercased, is the action and the trimmed remainder
    the parameter: a known action is dispatched to its handler, and an
    action for which [this.actions[action]] is undefined gives, without a
    throw, the text that lists the seven known actions.  Without a space,
    the trimmed, lowercased input is dispatched with an empty parameter if
    it is a known action, and the trimmed input is dispatched to [open] if
    [this.actions[action]] is undefined for it. *)
Theorem call_routing (input : string) (t : Tool Page) (w : World) :
  (forall i,
      indexOf " " input = Some i ->
      let action := toLowerCase (trim (sliceTo i input)) in
      let params := trim (sliceFrom (S i) input) in
      route input = (action, params) /\
      (forall v, own action actions = Some v ->
                 _call env input t w = dispatched env v params t w) /\
      (member action = Undefined ->
       _call env input t w =
       (Ok ("Unknown action: " ++ action ++ ". Available actions: "
            ++ "open, summarize, text, select, previous, get-html, "
            ++ "get-structured-urls"),
        touched env t w, w))) /\
  (indexOf " " input = None ->
   let action := toLowerCase (trim input) in
   (forall v, own action actions = Some v ->
              route input = (action, "") /\
              _call env input t w = dispatched env v "" t w) /\
   (member action = Undefined ->
    route input = ("open", trim input) /\
    _call env input t w = dispatched env Open (trim input) t w)).
Proof.
  split.
  - intros i Hi action params.
    assert (Hr : route input = (action, params)).
    { unfold route. now rewrite Hi. }
    split; [exact Hr|]. split.
    + intros v Hv. rewrite (call_route _ Hr). unfold dispatched, dispatch.
      now rewrite (member_own _ Hv).
    + intros Hm. rewrite (call_route _ Hr).
      unfold dispatch, tryCatch, bind, touch. rewrite Hm. reflexivity.
  - intros Hi action. split.
    + intros v Hv.
      assert (Hr : route input = (action, "")).
      { unfold route. rewrite Hi. fold action.
        now rewrite (member_own _ Hv). }
      split; [exact Hr|]. rewrite (call_route _ Hr).
      unfold dispatched, dispatch. now rewrite (member_own _ Hv).
    + intros Hm.
      assert (Hr : route input = ("open", trim input)).
      { unfold route. rewrite Hi. fold action. now rewrite Hm. }
      split; [exact Hr|]. rewrite (call_route _ Hr). reflexivity.
Qed.

Lemma member_not_inherited (action : string) :
  action <> "constructor" -> action <> "__proto__" ->
  member action = match own action actions with
                  | Some v => Handler v
                  | None => Undefined
                  end.
Proof.
  intros Hc Hp. unfold member. apply String.eqb_neq in Hc, Hp.
  now rewrite Hc, Hp.
Qed.

(** The routing of [_call] and the specified one agree on an input with no
    white space around the verb token or around a verbless input, whose
    verb is none of the two inherited names. *)
Lemma routing_agrees_when_trimmed (input : string) :
  (forall i, indexOf " " input = Some i ->
             trim (sliceTo i input) = sliceTo i input /\
             toLowerCase (sliceTo i input) <> "constructor" /\
             toLowerCase (sliceTo i input) <> "__proto__") ->
  (indexOf " " input = None ->
   trim input = input /\
   toLowerCase input <> "constructor" /\ toLowerCase input <> "__proto__") ->
  routing input = specifiedRouting input.
Proof.
  intros Hsp Hns. unfold routing, specifiedRouting, route.
  destruct (indexOf " " input) as [i|] eqn:Hi.
  - destruct (Hsp i eq_refl) as (-> & Hc & Hp).
    rewrite (member_not_inherited Hc Hp).
    now destruct (own (toLowerCase (sliceTo i input)) actions).
  - destruct (Hns eq_refl) as (-> & Hc & Hp).
    rewrite (member_not_inherited Hc Hp).
    destruct (own (toLowerCase input) actions) as [v|] eqn:Ho.
    + now rewrite (member_own _ Ho).
    + reflexivity.
Qed.


(** What [summarizeText] returns: the model's answer, or the text for a
    failure of the model. *)
Lemma summarizeText_parts (text searchText : string) (t : Tool Page) (w : World) :
  summarizeText env text searchText t w =
  match invoke env (summaryPrompt text searchText) w with
  | (Ok answer, w1) => (Ok answer, t, w1)
  | (Throw e, w1) => (reported env "Error summarizing text: " e, t, w1)
  end.
Proof.
  unfold summarizeText, tryCatch, await.
  destruct (invoke env (summaryPrompt text searchText) w) as [[answer|e] w1];
    [reflexivity|].
  apply report_reported.
Qed.


(** With no page open, the five handlers that test [this.page] return
    their advisory text and leave the instance alone. *)
Lemma no_page_advisory (v : Verb) (params : string) (t : Tool Page) (w : World) :
  page t = None ->
  v <> Open -> v <> Summarize ->
  handler env v params t w =
  (Ok match v with GetText => advisoryLong | _ => advisory end, t, w).
Proof.
  intros Hp Ho Hs.
  destruct v; try congruence;
    unfold handler, getPageText, getPageTextTry, selectDiv, selectDivTry,
      goToPreviousPage, goToPreviousPageTry, getHtml, getHtmlTry,
      getStructuredUrls, getStructuredUrlsTry, tryCatch, bind, getPage, ret;
    rewrite Hp; reflexivity.
Qed.

(** With no page open, [summarize] hands the advisory text of
    [getPageText] to the language model as the text to summarize. *)
Lemma summarize_no_page (params : string) (t : Tool Page) (w : World) :
  page t = None ->
  summarizePage env params t w = summarizeText env advisoryLong params t w.
Proof.
  intros Hp. change (summarizePage env params) with (handler env Summarize params).
  rewrite handler_parts. simpl.
  change (getPageText env params t w) with (handler env GetText params t w).
  rewrite (@no_page_advisory GetText params t w Hp); try discriminate.
  reflexivity.
Qed.

Lemma openPage_navigation_failure (url : string) (t : Tool Page)
    (w w1 w2 : World) (handle : Page) (name message : string) :
  page t = None ->
  puppeteer env w = true ->
  newPage env w = (Ok handle, w1) ->
  goto env handle url (timeout t) w1 = (Throw (ErrorObject name message), w2) ->
  openPage env url t w =
  (Ok ("Error opening page: " ++ message),
   mkTool (Some handle) (lastActionTime t) (timeout t) (idleTimeout t), w2).
Proof.
  intros Hp Ha Hn Hg.
  unfold openPage, openPageTry, initBrowser, tryCatch, bind, getPage, await,
    setPage, getTimeout.
  rewrite Hp, Ha, Hn. simpl. rewrite Hg. reflexivity.
Qed.

(** C10.  [open] on an instance with no page, with the Puppeteer service
    there and a page created, whose navigation then throws an [Error]:
    the call returns the error text and the instance keeps the page that
    was created before the navigation.  On that instance, at any later
    time stamp, every other verb goes to the page: what [get-html],
    [previous], [select], [text] (with or without a query),
    [get-structured-urls] and [summarize] return is what the page and the
    other collaborators answer, or the error text of the verb when one of
    them throws; the branch that returns the no-page advisory is not
    taken, and [previous] never returns that text. *)
Theorem failed_open_keeps_page (url : string) (t : Tool Page)
    (w w1 w2 : World) (handle : Page) (name message : string) :
  page t = None ->
  puppeteer env w = true ->
  newPage env w = (Ok handle, w1) ->
  goto env handle url (timeout t) w1 = (Throw (ErrorObject name message), w2) ->
  let opened :=
    fun time => mkTool (Some handle) time (timeout t) (idleTimeout t) in
  let t' := opened (lastActionTime t) in
  openPage env url t w = (Ok ("Error opening page: " ++ message), t', w2) /\
  dispatched env Open url t w =
    (Ok ("Error opening page: " ++ message), touched env t' w, w2) /\
  page t' = Some handle /\
  touched env t' w = opened (now env w) /\
  (forall v params time w3,
      dispatched env v params (opened time) w3 =
      match handler env v params (opened (now env w3)) w3 with
      | (Ok text, t1, w4) => (Ok text, t1, w4)
      | (Throw e, t1, w4) => callCatch e t1 w4
      end) /\
  (forall time w3,
      getHtml env (opened time) w3 =
      match content env handle w3 with
      | (Ok html, w4) => (Ok html, opened time, w4)
      | (Throw e, w4) =>
          (reported env "Error getting HTML: " e, opened time, w4)
      end) /\
  (forall time w3,
      goToPreviousPage env (opened time) w3 =
      match goBack env handle (timeout t) w3 with
      | (Ok _, w4) => (Ok "Navigated to previous page", opened time, w4)
      | (Throw e, w4) => (converted env Previous e, opened time, w4)
      end) /\
  (forall time w3,
      fst (fst (goToPreviousPage env (opened time) w3)) <> Ok advisory) /\
  (forall selector time w3,
      selectDiv env selector (opened time) w3 =
      match querySelector env handle selector w3 with
      | (Ok found, w4) =>
          (Ok (let content :=
                 match found with
                 | Some elementText => elementText
                 | None => "Element not found"
                 end in
               if truthy content then content else "No content found"),
           opened time, w4)
      | (Throw e, w4) =>
          (reported env "Error selecting div: " e, opened time, w4)
      end) /\
  (forall query time w3,
      getPageText env query (opened time) w3 =
      match document env handle w3 with
      | (Throw e, w4) =>
          (reported env "Error getting page text: " e, opened time, w4)
      | (Ok doc, w4) =>
          let text :=
            structuredText (resolveUrl env (location_href doc)) (body doc) in
          if truthy query then
            match splitText env text w4 with
            | (Throw e, w5) =>
                (reported env "Error getting page text: " e, opened time, w5)
            | (Ok texts, w5) =>
                match fromDocuments env texts w5 with
                | (Throw e, w6) =>
                    (reported env "Error getting page text: " e,
                     opened time, w6)
                | (Ok vectorStore, w6) =>
                    match similaritySearch env vectorStore query 20 w6 with
                    | (Throw e, w7) =>
                        (reported env "Error getting page text: " e,
                         opened time, w7)
                    | (Ok results, w7) =>
                        (Ok (String.concat (LF ++ LF) results),
                         opened time, w7)
                    end
                end
            end
          else (Ok text, opened time, w4)
      end) /\
  (forall time w3,
      getStructuredUrls env (opened time) w3 =
      match document env handle w3 with
      | (Throw e, w4) =>
          (reported env "Error getting structured URLs: " e, opened time, w4)
      | (Ok doc, w4) =>
          match classifyLinks (parseUrl env)
                  (ErrorObject "TypeError" (invalidUrlMessage env))
                  (location_hostname doc) (anchors doc) with
          | Ok urlStructure => (Ok (stringify env urlStructure), opened time, w4)
          | Throw e =>
              (reported env "Error getting structured URLs: " e,
               opened time, w4)
          end
      end) /\
  (forall query time w3,
      summarizePage env query (opened time) w3 =
      match getPageText env query (opened time) w3 with
      | (Ok text, t1, w4) =>
          match invoke env (summaryPrompt text query) w4 with
          | (Ok answer, w5) => (Ok answer, t1, w5)
          | (Throw e, w5) =>
              (reported env "Error summarizing text: " e, t1, w5)
          end
      | (Throw e, t1, w4) =>
          (reported env "Error summarizing page: " e, t1, w4)
      end).
Proof.
  intros Hp Ha Hn Hg opened t'.
  assert (Hprev : forall time w3,
      goToPreviousPage env (opened time) w3 =
      match goBack env handle (timeout t) w3 with
      | (Ok _, w4) => (Ok "Navigated to previous page", opened time, w4)
      | (Throw e, w4) => (converted env Previous e, opened time, w4)
      end).
  { intros time w3.
    change (goToPreviousPage env) with (handler env Previous "").
    rewrite handler_parts. simpl.
    unfold goToPreviousPageTry, bind, getPage, getTimeout, await, ret. simpl.
    destruct (goBack env handle (timeout t) w3) as [[[]|e] w4]; reflexivity. }
  split; [|split; [|split; [|split; [|split; [|split; [|split; [|split;
    [|split; [|split; [|split]]]]]]]]]].
  - now apply openPage_navigation_failure with (w1 := w1) (name := name).
  - unfold dispatched, tryCatch, bind, touch. simpl.
    rewrite (@openPage_navigation_failure url (touched env t w) w w1 w2
               handle name message Hp Ha Hn Hg).
    reflexivity.
  - reflexivity.
  - reflexivity.
  - intros v params time w3. unfold dispatched, tryCatch, bind, touch.
    reflexivity.
  - intros time w3.
    unfold getHtml, getHtmlTry, tryCatch, bind, getPage, await. simpl.
    destruct (content env handle w3) as [[html|e] w4]; [reflexivity|].
    apply report_reported.
  - exact Hprev.
  - intros time w3. rewrite Hprev.
    destruct (goBack env handle (timeout t) w3) as [[[]|e] w4]; simpl;
      [discriminate|]. destruct e; simpl; discriminate.
  - intros selector time w3.
    unfold selectDiv, selectDivTry, tryCatch, bind, getPage, await, ret. simpl.
    destruct (querySelector env handle selector w3) as [[found|e] w4];
      [reflexivity|]. apply report_reported.
  - intros query time w3.
    unfold getPageText, getPageTextTry, tryCatch, bind, getPage, await, ret.
    simpl.
    destruct (document env handle w3) as [[doc|e] w4];
      [|apply report_reported].
    cbv zeta. destruct (truthy query); [|reflexivity].
    destruct (splitText env _ w4) as [[texts|e] w5]; [|apply report_reported].
    destruct (fromDocuments env texts w5) as [[vectorStore|e] w6];
      [|apply report_reported].
    destruct (similaritySearch env vectorStore query 20 w6) as [[results|e] w7];
      [reflexivity|apply report_reported].
  - intros time w3.
    unfold getStructuredUrls, getStructuredUrlsTry, tryCatch, bind, getPage,
      await, ret, throw. simpl.
    destruct (document env handle w3) as [[doc|e] w4];
      [|apply report_reported].
    destruct (classifyLinks _ _ _ _) as [u|e]; [reflexivity|].
    apply report_reported.
  - intros query time w3.
    change (summarizePage env query) with (handler env Summarize query).
    rewrite handler_parts. simpl.
    destruct (getPageText env query (opened time) w3) as [[[text|e] t1] w4];
      [|reflexivity].
    apply summarizeText_parts.
Qed.

End WithEnv.

Import Sample.


(** C5, as stated, fails: a line feed before the verb is trimmed off the
    token by the code, so the input is an [open] call, where the claim reads
    an unknown verb; and a verbless input is trimmed before it is handed to
    [open], where the claim hands over the entire input. *)
Lemma routing_trims_what_the_claim_keeps :
  routing (LF ++ "open https://example.com")
    = ToHandler Open "https://example.com" /\
  specifiedRouting (LF ++ "open https://example.com")
    = ToUnknownAction (LF ++ "open") /\
  routing ("https://example.com" ++ LF)
    = ToHandler Open "https://example.com" /\
  specifiedRouting ("https://example.com" ++ LF)
    = ToHandler Open ("https://example.com" ++ LF) /\
  routing (LF ++ "open https://example.com")
    <> specifiedRouting (LF ++ "open https://example.com").
Proof. repeat split. discriminate. Qed.





(** C7 (the code departs from the claim).  [summarize] on an instance with
    no page does not return the advisory text: it asks the language model
    to summarize that text and returns the model's answer. *)
Theorem summarize_without_page_asks_model :
  page (newTool nat 0) = None /\
  _call sampleEnv "summarize" (newTool nat 0) 5%N
  = (Ok "Summary of <Text: No page is open, please use open action first>",
     mkTool None 5 30000 300000, 6%N) /\
  _call sampleEnv "text" (newTool nat 0) 5%N
  = (Ok "No page is open, please use open action first",
     mkTool None 5 30000 300000, 5%N).
Proof. repeat split. Qed.

Lemma failed_open_keeps_page_witness :
  page (newTool nat 0) = None /\
  puppeteer sampleEnv 5%N = true /\
  newPage sampleEnv 5%N = (Ok 1, 6%N) /\
  goto sampleEnv 1 "https://down.example" (timeout (newTool nat 0)) 6%N
  = (Throw (ErrorObject "Error"
              "net::ERR_NAME_NOT_RESOLVED at https://down.example"), 7%N) /\
  openPage sampleEnv "https://down.example" (newTool nat 0) 5%N
  = (Ok ("Error opening page: "
         ++ "net::ERR_NAME_NOT_RESOLVED at https://down.example"),
     mkTool (Some 1) 0 30000 300000, 7%N) /\
  getHtml sampleEnv (mkTool (Some 1) 0 30000 300000) 7%N
  = (Ok "<html><body>Example Domain</body></html>",
     mkTool (Some 1) 0 30000 300000, 8%N).
Proof.
  pose proof (@failed_open_keeps_page N nat (list string) sampleEnv
                "https://down.example" (newTool nat 0) 5%N 6%N 7%N 1
                "Error" "net::ERR_NAME_NOT_RESOLVED at https://down.example"
                eq_refl eq_refl eq_refl eq_refl) as H.
  do 4 (split; [reflexivity|]). split.
  - exact (proj1 H).
  - exact (proj1 (proj2 (proj2 (proj2 (proj2 (proj2 H))))) 0%N 7%N).
Defined.

(** The verbs called after the failed [open], on the instance it left. *)
Example verbs_after_failed_open :
  let after :=
    snd (fst (_call sampleEnv "open https://down.example" (newTool nat 0) 5%N))
  in
  after = mkTool (Some 1) 5%N 30000%N 300000%N /\
  fst (fst (_call sampleEnv "get-html" after 9%N))
  = Ok "<html><body>Example Domain</body></html>" /\
  fst (fst (_call sampleEnv "previous" after 9%N))
  = Ok "Navigated to previous page" /\
  fst (fst (_call sampleEnv "select h1" after 9%N)) = Ok "Example Domain" /\
  fst (fst (_call sampleEnv "select h2" after 9%N)) = Ok "Element not found" /\
  fst (fst (_call sampleEnv "get-structured-urls" after 9%N))
  = Ok ("search=[information: https://example.com/search?q=rocq; "
        ++ "Research: https://example.com/research] "
        ++ "navigation=[About: https://example.com/about] "
        ++ "external=[IANA: https://www.iana.org/domains] "
        ++ "other=[Terms: https://example.com/terms]") /\
  fst (fst (_call sampleEnv "text" after 9%N))
  = Ok (structuredText (resolveUrl sampleEnv "https://example.com/")
          sampleBody) /\
  fst (fst (_call sampleEnv "text rocq" after 9%N))
  = Ok (structuredText (resolveUrl sampleEnv "https://example.com/")
          sampleBody) /\
  fst (fst (_call sampleEnv "summarize" after 9%N))
  = Ok ("Summary of <"
        ++ sliceTo 51
             (summaryPrompt
                (structuredText (resolveUrl sampleEnv "https://example.com/")
                   sampleBody) "")
        ++ ">") /\
  fst (fst (_call brokenLinkEnv "get-structured-urls" after 9%N))
  = Ok "Error getting structured URLs: Invalid URL".
Proof. cbv zeta. repeat split. Qed.

(** A value thrown by [summarizeText] passes the [catch] of [summarizePage]
    and is turned into text by the [catch] of [_call]. *)
Example summarize_with_broken_model :
  _call brokenModelEnv "summarize" (mkTool (Some 1) 0%N 30000%N 300000%N) 5%N
  = (Ok "Error: Cannot read properties of null",
     mkTool (Some 1) 5%N 30000%N 300000%N, 7%N).
Proof. reflexivity. Qed.

Example unknown_action_lists_the_verbs :
  _call sampleEnv "bogus foo" (newTool nat 0) 5%N
  = (Ok ("Unknown action: bogus. Available actions: open, summarize, text, "
         ++ "select, previous, get-html, get-structured-urls"),
     mkTool None 5%N 30000%N 300000%N, 5%N).
Proof. reflexivity. Qed.

Example verbless_input_opens :
  _call sampleEnv "https://example.com" (newTool nat 0) 5%N
  = _call sampleEnv "open https://example.com" (newTool nat 0) 5%N.
Proof. reflexivity. Qed.

Example failed_open_then_get_html :
  let r1 := _call sampleEnv "open https://down.example" (newTool nat 0) 5%N in
  _call sampleEnv "get-html" (snd (fst r1)) (snd r1)
  = (Ok "<html><body>Example Domain</body></html>",
     mkTool (Some 1) 7 30000 300000, 8%N).
Proof. reflexivity. Qed.

End ToolFacts.

(** ** ObjectLock: invariants and progress *)

Module LockMore.
Import Lock.

(* theorems *)
Lemma sorted_snoc (q : list nat) (c : nat) :
  StronglySorted lt q -> Forall (fun id => id < c) q ->
  StronglySorted lt (q ++ [c]).
Proof.
  induction q as [|x q IH]; intros Hs Hb; simpl.
  - constructor; constructor.
  - inversion Hs as [|? ? Hq Hx]; subst. inversion Hb as [|? ? Hxc Hbq]; subst.
    constructor; [now apply IH|].
    apply Forall_app. split; [exact Hx|]. now constructor.
Qed.

Lemma splice1_sorted (index : nat) (q : list nat) :
  StronglySorted lt q -> StronglySorted lt (splice1 index q).
Proof.
  revert index. induction q as [|x q IH]; intros index Hs; simpl.
  - destruct index; constructor.
  - inversion Hs as [|? ? Hq Hx]; subst. destruct index as [|i]; [exact Hq|].
    constructor; [now apply IH|].
    apply Forall_forall. intros y Hy. rewrite Forall_forall in Hx. apply Hx.
    clear -Hy. revert i Hy. induction q as [|z q IHq]; intros i Hy; simpl in *.
    + destruct i; contradiction.
    + destruct i as [|i]; [now right|].
      destruct Hy as [->|Hy]; [now left | right; eauto].
Qed.

Lemma splice1_incl (index : nat) (q : list nat) (y : nat) :
  In y (splice1 index q) -> In y q.
Proof.
  revert index. induction q as [|z q IH]; intros i Hy; simpl in *.
  - destruct i; contradiction.
  - destruct i as [|i]; [now right|].
    destruct Hy as [->|Hy]; [now left | right; eauto].
Qed.

Lemma step_ordered (e : event) (s : System) :
  ordered (obj s) -> ordered (obj (snd (step e s))).
Proof.
  destruct s as [[l q c] w h]. unfold ordered; simpl. intros [Hs Hb].
  destruct e as [|id|id]; simpl.
  - unfold lock_enter; simpl.
    assert (Hs' : StronglySorted lt (q ++ [c])) by now apply sorted_snoc.
    assert (Hb' : Forall (fun id => id < S c) (q ++ [c])).
    { apply Forall_app. split.
      - eapply Forall_impl; [|exact Hb]. simpl. lia.
      - constructor; [lia | constructor]. }
    destruct l; simpl; auto.
  - destruct (existsb (Nat.eqb id) w); simpl; auto.
    unfold lock_poll; simpl. destruct (head_differs id q || l); simpl; auto.
  - unfold unlock; simpl. destruct l; simpl; auto.
    destruct (indexOf id q) as [index|]; simpl; auto. split.
    + now apply splice1_sorted.
    + apply Forall_forall. intros y Hy. rewrite Forall_forall in Hb.
      apply Hb. eapply splice1_incl; eauto.
Qed.

Lemma run_ordered (es : list event) (s : System) :
  ordered (obj s) -> ordered (obj (run es s)).
Proof.
  revert s. induction es as [|e es IH]; intros s H; simpl; [exact H|].
  apply IH. now apply step_ordered.
Qed.

Lemma initial_ordered : ordered (obj initial).
Proof. split; constructor. Qed.

(** X2.  After any sequence of [lock()] calls, wake-ups and [unlock]
    calls on a fresh lock, proper or not, the queue is in strictly
    increasing order, every queued id is below the counter, and no id is
    queued twice. *)
Theorem queue_strictly_increasing (es : list event) :
  let o := obj (run es initial) in
  StronglySorted lt (_queue o) /\
  Forall (fun id => id < _currentId o) (_queue o) /\
  NoDup (_queue o).
Proof.
  destruct (@run_ordered es initial initial_ordered) as [Hs Hb].
  cbv zeta. split; [exact Hs|]. split; [exact Hb|].
  clear Hb. induction Hs as [|x q Hq IH Hx]; constructor; [|exact IH].
  intros Hin. rewrite Forall_forall in Hx. specialize (Hx x Hin). lia.
Qed.

(** X3.  In a state reached from a fresh lock, a ticket that sleeps in
    [lock()] takes the lock at a wake-up only when the lock is free and the
    ticket is the head of the queue, which is then the smallest id in the
    queue.  (A sleeper with a smaller id that [unlock] has taken off the
    queue may still be asleep, and a late caller of [lock()] may take a
    free lock first: this is no first-come-first-served guarantee.) *)
Theorem wake_serves_oldest_queued (es : list event) (id : nat) :
  let s := run es initial in
  fst (step (Wake id) s) = Polled Acquired ->
  _lock (obj s) = false /\
  In id (waiting s) /\
  (exists q', _queue (obj s) = id :: q') /\
  (forall other, In other (_queue (obj s)) -> id <= other).
Proof.
  cbv zeta. pose proof (@run_ordered es initial initial_ordered) as [Hs _].
  destruct (run es initial) as [[l q c] w h]; simpl in *.
  destruct (existsb (Nat.eqb id) w) eqn:Hw; [|discriminate].
  unfold lock_poll; simpl.
  destruct (head_differs id q) eqn:Hd; simpl; [discriminate|].
  destruct l; simpl; [discriminate|]. intros _.
  destruct q as [|x q]; [discriminate|]. simpl in Hd.
  apply negb_false_iff, Nat.eqb_eq in Hd. subst x.
  split; [reflexivity|]. split.
  - apply existsb_exists in Hw. destruct Hw as [y [Hy Heq]].
    apply Nat.eqb_eq in Heq. now subst.
  - split; [eauto|]. intros other [<-|Hin]; [lia|].
    inversion Hs as [|? ? _ Hx]; subst. rewrite Forall_forall in Hx.
    specialize (Hx other Hin). lia.
Qed.

Lemma wake_serves_oldest_queued_witness :
  fst (step (Wake 1) (run [CallLock; CallLock; CallLock; CallUnlock 0] initial))
  = Polled Acquired /\
  forall other,
    In other (_queue (obj (run [CallLock; CallLock; CallLock; CallUnlock 0]
                             initial))) ->
    1 <= other.
Proof.
  split; [reflexivity|].
  exact (proj2 (proj2 (proj2
           (@wake_serves_oldest_queued
              [CallLock; CallLock; CallLock; CallUnlock 0] 1 eq_refl)))).
Defined.

(** The head of the queue need not be the oldest sleeper: after an
    [unlock(1)] that takes the sleeping ticket 1 off the queue, ticket 2
    takes the lock at its wake-up while ticket 1 is still asleep. *)
Example wake_passes_dequeued_sleeper :
  let s :=
    run [CallLock; CallLock; CallLock; CallUnlock 1; CallLock; CallUnlock 0]
        initial in
  fst (step (Wake 2) s) = Polled Acquired /\
  waiting s = [1; 2] /\ _queue (obj s) = [2; 3].
Proof. cbv zeta. repeat split. Qed.


Import LockFacts.

(** X1.  When [unlock(id)] is only ever called for a ticket that holds
    the lock, at most one ticket holds it, [isLocked] is true exactly when
    one does, and the holder is still queued. *)
Theorem proper_use_mutual_exclusion (es : list event) :
  proper es initial = true ->
  let s := run es initial in
  length (holders s) <= 1 /\
  (isLocked (obj s) = true <-> holders s <> []) /\
  (forall h, In h (holders s) -> In h (_queue (obj s))).
Proof.
  intros Hp. cbv zeta.
  assert (Hx : exclusive (run es initial)).
  { apply run_exclusive; [reflexivity | exact Hp]. }
  unfold exclusive, isLocked in *.
  destruct (holders (run es initial)) as [|h1 [|h2 h]]; simpl.
  - rewrite Hx. split; [lia|]. split; [|contradiction].
    split; [discriminate | congruence].
  - destruct Hx as [-> Hin]. split; [lia|]. split.
    + split; [discriminate | reflexivity].
    + intros h [<-|[]]. exact Hin.
  - contradiction.
Qed.

Lemma proper_use_mutual_exclusion_witness :
  proper [CallLock; CallLock; CallUnlock 0; Wake 1; CallLock] initial = true /\
  length (holders (run [CallLock; CallLock; CallUnlock 0; Wake 1; CallLock]
                     initial)) <= 1.
Proof.
  split; [reflexivity|].
  exact (proj1 (@proper_use_mutual_exclusion
                  [CallLock; CallLock; CallUnlock 0; Wake 1; CallLock]
                  eq_refl)).
Defined.

Lemma step_dropped (id : nat) (e : event) (s : System) :
  dropped id s -> dropped id (snd (step e s)).
Proof.
  destruct s as [[l q c] w h]. unfold dropped; simpl. intros [Hlt Hnin].
  destruct e as [|id'|id']; simpl.
  - unfold lock_enter; simpl.
    assert (~ In id (q ++ [c])).
    { intros Hin. apply in_app_or in Hin. destruct Hin as [Hin|[Heq|[]]];
        [contradiction | lia]. }
    destruct l; simpl; split; auto; lia.
  - destruct (existsb (Nat.eqb id') w); simpl; auto.
    unfold lock_poll; simpl. destruct (head_differs id' q || l); simpl; auto.
  - unfold unlock; simpl. destruct l; simpl; auto.
    destruct (indexOf id' q) as [index|]; simpl; auto. split; [exact Hlt|].
    intros Hin. apply Hnin. eapply splice1_incl; eauto.
Qed.

Lemma step_no_new_holder (id : nat) (e : event) (s : System) :
  dropped id s -> ~ In id (holders s) -> ~ In id (holders (snd (step e s))).
Proof.
  destruct s as [[l q c] w h]. unfold dropped; simpl. intros [Hlt Hnin] Hh.
  destruct e as [|id'|id']; simpl.
  - unfold lock_enter; simpl. destruct l; simpl; [exact Hh|].
    intros Hin. apply in_app_or in Hin. destruct Hin as [Hin|[Heq|[]]];
      [contradiction | lia].
  - destruct (existsb (Nat.eqb id') w); simpl; [|exact Hh].
    unfold lock_poll; simpl.
    destruct (head_differs id' q) eqn:Hd; simpl; [exact Hh|].
    destruct l; simpl; [exact Hh|].
    apply head_differs_false in Hd. destruct Hd as [q' ->].
    intros Hin. apply in_app_or in Hin. destruct Hin as [Hin|[Heq|[]]];
      [contradiction|]. subst id'. apply Hnin. now left.
  - unfold unlock; simpl. destruct l; simpl; [|exact Hh].
    destruct (indexOf id' q); simpl; [|exact Hh].
    unfold without. intros Hin. apply filter_In in Hin. now destruct Hin.
Qed.

(** X4.  A ticket that was handed out, is no longer queued and does not
    hold the lock (its id was passed to [unlock] while it slept) stays out
    of the queue and never takes the lock, whatever happens next: its
    [lock()] call does not return. *)
Theorem dropped_ticket_never_served (es : list event) (s : System) (id : nat) :
  id < _currentId (obj s) ->
  ~ In id (_queue (obj s)) ->
  ~ In id (holders s) ->
  let s' := run es s in
  ~ In id (_queue (obj s')) /\
  ~ In id (holders s') /\
  fst (step (Wake id) s') <> Polled Acquired.
Proof.
  intros Hlt Hnin Hh. cbv zeta.
  assert (H : dropped id (run es s) /\ ~ In id (holders (run es s))).
  { revert s Hlt Hnin Hh. induction es as [|e es IH]; intros s Hlt Hnin Hh.
    - simpl. unfold dropped. auto.
    - simpl. assert (Hd : dropped id s) by (split; assumption).
      pose proof (@step_dropped id e s Hd) as [Hlt' Hnin'].
      apply IH; [exact Hlt' | exact Hnin' |].
      now apply step_no_new_holder. }
  destruct H as [[_ Hq] Hh']. split; [exact Hq|]. split; [exact Hh'|].
  destruct (run es s) as [[l q c] w h]; simpl in *.
  destruct (existsb (Nat.eqb id) w); [|discriminate].
  unfold lock_poll; simpl.
  destruct (head_differs id q) eqn:Hd; simpl; [discriminate|].
  apply head_differs_false in Hd. destruct Hd as [q' ->].
  exfalso. apply Hq. now left.
Qed.

Lemma dropped_ticket_never_served_witness :
  let s := run [CallLock; CallLock; CallUnlock 1] initial in
  In 1 (waiting s) /\ 1 < _currentId (obj s) /\
  fst (step (Wake 1) (run [CallUnlock 0; Wake 1; CallLock; CallUnlock 2] s))
  <> Polled Acquired.
Proof.
  cbv zeta. split; [simpl; auto|]. split; [simpl; lia|].
  refine (proj2 (proj2 (@dropped_ticket_never_served
            [CallUnlock 0; Wake 1; CallLock; CallUnlock 2]
            (run [CallLock; CallLock; CallUnlock 1] initial) 1 _ _ _))).
  - simpl. lia.
  - simpl. intros [H|[]]. discriminate.
  - simpl. intros [H|[]]. discriminate.
Defined.

Lemma indexOf_middle (id : nat) (q r : list nat) :
  ~ In id q ->
  indexOf id (q ++ id :: r) = Some (length q) /\
  splice1 (length q) (q ++ id :: r) = q ++ r.
Proof.
  induction q as [|x q IH]; intros Hnin; simpl.
  - now rewrite Nat.eqb_refl.
  - destruct (Nat.eqb_spec x id) as [->|Hne]; [exfalso; apply Hnin; now left|].
    destruct IH as [-> ->]; [intros H; apply Hnin; now right|]. auto.
Qed.

(** On a held lock, tasks that call no [unlock] only append their tickets
    to the queue. *)
Lemma perform_held (l : list action) (q : list nat) (c : nat) :
  unlockFree l = true ->
  perform l (mkLock true q c) = mkLock true (q ++ seq c (calls l)) (c + calls l).
Proof.
  revert q c. induction l as [|a l IH]; intros q c Hu.
  - simpl. now rewrite app_nil_r, Nat.add_0_r.
  - simpl in Hu. apply andb_true_iff in Hu. destruct Hu as [Ha Hu].
    destruct a as [|id|id]; [| |discriminate].
    + change (perform (OtherLock :: l) (mkLock true q c))
        with (perform l (mkLock true (q ++ [c]) (S c))).
      rewrite (IH _ _ Hu).
      change (calls (OtherLock :: l)) with (S (calls l)).
      simpl seq. rewrite <- app_assoc. simpl.
      now rewrite Nat.add_succ_r.
    + change (calls (OtherWake id :: l)) with (calls l).
      rewrite <- (IH _ _ Hu). unfold perform. simpl. unfold lock_poll. simpl.
      now rewrite orb_true_r.
Qed.

(** X5.  [runLocked(func)] called on a free lock whose queued ids are
    below the counter, with a [func] that resolves while the other tasks
    call [lock()] and wake up but call no [unlock], returns the result of
    [func] and leaves the flag clear; its own ticket has left the queue,
    which holds what it held before followed by the tickets the other
    tasks took meanwhile. *)
Theorem runLocked_restores_free_lock (T W : Type) (func : W -> outcome T * W)
    (sched : interference) (meanwhile : list action) (s : ObjectLock)
    (w w' : W) (result : T) :
  _lock s = false ->
  Forall (fun id => id < _currentId s) (_queue s) ->
  unlockFree meanwhile = true ->
  func w = (Ok result, w') ->
  runLocked func sched (perform meanwhile) s w =
  (Returns result,
   mkLock false (_queue s ++ seq (S (_currentId s)) (calls meanwhile))
          (S (_currentId s) + calls meanwhile),
   w').
Proof.
  intros Hfree Hb Hu Hf. unfold runLocked.
  rewrite (lock_free_returns sched _ Hfree), Hf.
  rewrite (@perform_held _ _ _ Hu).
  assert (Hnin : ~ In (_currentId s) (_queue s)).
  { intros Hin. rewrite Forall_forall in Hb. specialize (Hb _ Hin). lia. }
  destruct (@indexOf_middle _ _ (seq (S (_currentId s)) (calls meanwhile)) Hnin)
    as [Hi Hsp].
  unfold unlock. simpl. rewrite <- app_assoc. simpl.
  rewrite Hi, Hsp. reflexivity.
Qed.

Lemma runLocked_restores_free_lock_witness :
  runLocked (fun w : nat => (Ok (w * 2), S w)) []
            (perform [OtherLock; OtherWake 7; OtherLock])
            (mkLock false [3; 5] 6) 21
  = (Returns 42, mkLock false [3; 5; 7; 8] 9, 22).
Proof.
  apply (@runLocked_restores_free_lock nat nat
           (fun w => (Ok (w * 2), S w)) [] [OtherLock; OtherWake 7; OtherLock]
           (mkLock false [3; 5] 6) 21 22 42).
  - reflexivity.
  - simpl. repeat constructor.
  - reflexivity.
  - reflexivity.
Defined.

Lemma lock_wait_held (id : nat) (sched : interference) (s : ObjectLock) :
  Forall keepsHeld sched -> _lock s = true ->
  fst (lock_wait id sched s) = None /\ _lock (snd (lock_wait id sched s)) = true.
Proof.
  revert s. induction sched as [|f sched IH]; intros s Hk Hl; simpl.
  - auto.
  - inversion Hk as [|? ? Hf Hrest]; subst.
    unfold lock_poll. rewrite (Hf s Hl), orb_true_r.
    apply IH; [exact Hrest | exact (Hf s Hl)].
Qed.

(** X6.  While the flag is set and the other tasks leave it set,
    [lock()] does not return, and [runLocked(func)] stays suspended with
    the flag still set and without having run [func]. *)
Theorem runLocked_waits_while_held (T W : Type) (func : W -> outcome T * W)
    (sched : interference) (during : ObjectLock -> ObjectLock)
    (s : ObjectLock) (w : W) :
  _lock s = true ->
  Forall keepsHeld sched ->
  fst (lock sched s) = None /\
  exists s',
    runLocked func sched during s w = (Suspended, s', w) /\ _lock s' = true.
Proof.
  intros Hl Hk. unfold runLocked, lock, lock_enter. simpl. rewrite Hl.
  destruct (@lock_wait_held (_currentId s) sched
              (mkLock true (_queue s ++ [_currentId s]) (S (_currentId s)))
              Hk eq_refl) as [Hnone Hheld].
  destruct (lock_wait (_currentId s) sched
              (mkLock true (_queue s ++ [_currentId s]) (S (_currentId s))))
    as [[a|] s2]; simpl in *; [discriminate|].
  split; [reflexivity|]. eauto.
Qed.

Lemma runLocked_waits_while_held_witness :
  _lock (mkLock true [0] 1) = true /\
  Forall keepsHeld [fun s => s; fun s => snd (lock_enter s)] /\
  fst (lock [fun s => s; fun s => snd (lock_enter s)] (mkLock true [0] 1))
  = None.
Proof.
  assert (Hk : Forall keepsHeld [fun s => s; fun s => snd (lock_enter s)]).
  { repeat constructor.
    - intros s H. exact H.
    - intros s H. unfold lock_enter. simpl. rewrite H. reflexivity. }
  split; [reflexivity|]. split; [exact Hk|].
  exact (proj1 (@runLocked_waits_while_held nat nat (fun w => (Ok w, S w))
                  [fun s => s; fun s => snd (lock_enter s)] (fun s => s)
                  (mkLock true [0] 1) 5 eq_refl Hk)).
Defined.

End LockMore.

(** ** The tool: the page handle and its life time *)

Module SessionFacts.
Import JS Browser.
Local Open Scope string_scope.

Section WithEnv.
Variables World Page Store : Type.
Variable env : Env World Page Store.

Lemma steady_ret (A : Type) (a : A) : steady (@ret World Page A a).
Proof. intros t w. reflexivity. Qed.

Lemma steady_throw (A : Type) (e : thrown) : steady (@throw World Page A e).
Proof. intros t w. reflexivity. Qed.

Lemma steady_await (A : Type) (call : World -> outcome A * World) :
  steady (@await World Page A call).
Proof. intros t w. unfold await. now destruct (call w). Qed.

Lemma steady_getPage : steady (@getPage World Page).
Proof. intros t w. reflexivity. Qed.

Lemma steady_getTimeout : steady (@getTimeout World Page).
Proof. intros t w. reflexivity. Qed.

Lemma steady_bind (A B : Type) (m : M World Page A) (k : A -> M World Page B) :
  steady m -> (forall a, steady (k a)) -> steady (bind m k).
Proof.
  intros Hm Hk t w. unfold bind. specialize (Hm t w).
  destruct (m t w) as [[[a|e] t1] w1]; simpl in *; subst; [apply Hk|reflexivity].
Qed.

Lemma steady_tryCatch (A : Type) (m : M World Page A) (h : thrown -> M World Page A) :
  steady m -> (forall e, steady (h e)) -> steady (tryCatch m h).
Proof.
  intros Hm Hh t w. unfold tryCatch. specialize (Hm t w).
  destruct (m t w) as [[[a|e] t1] w1]; simpl in *; subst; [reflexivity|apply Hh].
Qed.

Lemma steady_messageOf (e : thrown) : steady (messageOf env e).
Proof. destruct e; intros t w; reflexivity. Qed.

Lemma steady_report (start : string) (e : thrown) : steady (report env start e).
Proof.
  apply steady_bind; [apply steady_messageOf | intros; apply steady_ret].
Qed.

Ltac steady_step :=
  first
    [ apply steady_ret | apply steady_throw | apply steady_await
    | apply steady_getPage | apply steady_getTimeout | apply steady_report
    | apply steady_messageOf
    | apply steady_tryCatch; [|intros ?]
    | apply steady_bind; [|intros ?]
    | match goal with
      | |- steady (match ?x with _ => _ end) => destruct x
      | |- steady (if ?x then _ else _) => destruct x
      end ].

Lemma steady_getPageText (searchText : string) :
  steady (getPageText env searchText).
Proof. unfold getPageText, getPageTextTry. repeat steady_step. Qed.

Lemma steady_summarizeText (text searchText : string) :
  steady (summarizeText env text searchText).
Proof. unfold summarizeText. repeat steady_step. Qed.

(** No handler but [open] writes a field of the instance. *)
Lemma steady_handler (v : Verb) (params : string) :
  v <> Open -> steady (handler env v params).
Proof.
  intros Hv. destruct v; try congruence; simpl.
  - unfold summarizePage. apply steady_bind.
    + apply steady_tryCatch.
      * apply steady_bind; [apply steady_getPageText | intros; apply steady_ret].
      * intros e. repeat steady_step.
    + intros [text|text]; [apply steady_summarizeText | apply steady_ret].
  - apply steady_getPageText.
  - unfold selectDiv, selectDivTry. repeat steady_step.
  - unfold goToPreviousPage, goToPreviousPageTry, goToPreviousPageCatch.
    repeat steady_step.
  - unfold getHtml, getHtmlTry. repeat steady_step.
  - unfold getStructuredUrls, getStructuredUrlsTry. repeat steady_step.
Qed.

(** [open] with a page at hand goes to that page: no page is created. *)
Lemma openPage_existing (url : string) (t : Tool Page) (w : World) (handle : Page) :
  page t = Some handle ->
  openPage env url t w =
  match goto env handle url (timeout t) w with
  | (Ok _, w') => (Ok "Page opened successfully", t, w')
  | (Throw e, w') => (reported env "Error opening page: " e, t, w')
  end.
Proof.
  intros Hp.
  unfold openPage, openPageTry, initBrowser, tryCatch, bind, getPage, await,
    getTimeout, ret.
  rewrite Hp. simpl. rewrite Hp.
  destruct (goto env handle url (timeout t) w) as [[[]|e] w']; [reflexivity|].
  apply (@ToolFacts.report_reported World Page Store env).
Qed.

(** [open] with no page at hand. *)
Lemma openPage_fresh (url : string) (t : Tool Page) (w : World) :
  page t = None ->
  openPage env url t w =
  if puppeteer env w then
    match newPage env w with
    | (Ok handle, w1) =>
        let t1 := mkTool (Some handle) (lastActionTime t) (timeout t)
                         (idleTimeout t) in
        match goto env handle url (timeout t) w1 with
        | (Ok _, w2) => (Ok "Page opened successfully", t1, w2)
        | (Throw e, w2) => (reported env "Error opening page: " e, t1, w2)
        end
    | (Throw e, w1) => (reported env "Error opening page: " e, t, w1)
    end
  else (Ok "Error opening page: Puppeteer service is not available", t, w).
Proof.
  intros Hp.
  unfold openPage, openPageTry, initBrowser, tryCatch, bind, getPage, await,
    getTimeout, setPage, ret, throw.
  rewrite Hp. destruct (puppeteer env w); [|reflexivity].
  destruct (newPage env w) as [[handle|e] w1]; simpl.
  - destruct (goto env handle url (timeout t) w1) as [[[]|e] w2];
      [reflexivity|].
    apply (@ToolFacts.report_reported World Page Store env).
  - apply (@ToolFacts.report_reported World Page Store env).
Qed.


Lemma callCatch_steady (m : M World Page string) (t : Tool Page) (w : World) :
  snd (fst (tryCatch m (@callCatch World Page) t w)) = snd (fst (m t w)).
Proof.
  unfold tryCatch. destruct (m t w) as [[[text|e] t1] w1]; [reflexivity|].
  now destruct e.
Qed.

(** The instance after a call: the time stamp is written, and [open] on an
    instance without a page may set the page. *)
Lemma call_instance (input : string) (t : Tool Page) (w : World) :
  let t' := snd (fst (_call env input t w)) in
  t' = touched env t w \/
  (page t = None /\
   (exists params, routing input = ToHandler Open params) /\
   exists handle,
     t' = mkTool (Some handle) (now env w) (timeout t) (idleTimeout t)).
Proof.
  cbv zeta. unfold _call, routing. destruct (route input) as [action params].
  rewrite callCatch_steady. unfold bind, touch, dispatch.
  destruct (member action) as [v| | |] eqn:Hm; try (left; reflexivity).
  destruct v;
    try (left; apply steady_handler; discriminate).
  simpl. destruct (page t) as [handle|] eqn:Hp.
  - left. rewrite (@openPage_existing params (touched env t w) w handle Hp).
    now destruct (goto env handle params (timeout (touched env t w)) w)
      as [[[]|e] w'].
  - rewrite (@openPage_fresh params (touched env t w) w Hp).
    destruct (puppeteer env w); [|left; reflexivity].
    destruct (newPage env w) as [[handle|e] w1]; [|left; reflexivity].
    right. split; [reflexivity|]. split; [eauto|]. exists handle.
    now destruct (goto env handle params (timeout (touched env t w)) w1)
      as [[[]|e] w2].
Qed.

(** X7.  Whatever the input, [_call] leaves [timeout] and [idleTimeout]
    as they were and sets [lastActionTime] to the clock at the call; a
    page at hand stays the same page, and the page field changes only
    from none to a page, through the [open] handler. *)
Theorem call_frame (input : string) (t : Tool Page) (w : World) :
  let t' := snd (fst (_call env input t w)) in
  timeout t' = timeout t /\
  idleTimeout t' = idleTimeout t /\
  lastActionTime t' = now env w /\
  (forall handle, page t = Some handle -> page t' = Some handle) /\
  (page t' <> page t ->
   page t = None /\ exists params, routing input = ToHandler Open params).
Proof.
  cbv zeta.
  destruct (call_instance input t w) as [-> | (Hp & Hr & handle & ->)]; simpl.
  - split; [reflexivity|]. split; [reflexivity|]. split; [reflexivity|].
    split; [auto|]. intros Hne. now elim Hne.
  - split; [reflexivity|]. split; [reflexivity|]. split; [reflexivity|].
    split; [rewrite Hp; discriminate|]. auto.
Qed.

(** X8.  [open] on an instance that has a page creates no second page:
    it navigates the page at hand, returns [Page opened successfully] or
    the text of the navigation error, and leaves the instance as it was. *)
Theorem open_reuses_page (url : string) (t : Tool Page) (w : World)
    (handle : Page) :
  page t = Some handle ->
  openPage env url t w =
  match goto env handle url (timeout t) w with
  | (Ok _, w') => (Ok "Page opened successfully", t, w')
  | (Throw e, w') => (reported env "Error opening page: " e, t, w')
  end.
Proof. apply openPage_existing. Qed.

(** X9.  [open] on an instance without a page: with no Puppeteer service
    it returns [Error opening page: Puppeteer service is not available]
    and touches nothing; when creating the page fails it returns the text
    of that error and the instance still has no page; when the page is
    created and the navigation succeeds it returns
    [Page opened successfully] and keeps the new page. *)
Theorem open_without_page (url : string) (t : Tool Page) (w : World) :
  page t = None ->
  (puppeteer env w = false ->
   openPage env url t w =
   (Ok "Error opening page: Puppeteer service is not available", t, w)) /\
  (forall e w1,
      puppeteer env w = true -> newPage env w = (Throw e, w1) ->
      openPage env url t w = (reported env "Error opening page: " e, t, w1)) /\
  (forall handle w1 w2,
      puppeteer env w = true -> newPage env w = (Ok handle, w1) ->
      goto env handle url (timeout t) w1 = (Ok tt, w2) ->
      openPage env url t w =
      (Ok "Page opened successfully",
       mkTool (Some handle) (lastActionTime t) (timeout t) (idleTimeout t),
       w2)).
Proof.
  intros Hp. rewrite (openPage_fresh url t w Hp). split; [|split].
  - now intros ->.
  - intros e w1 -> ->. reflexivity.
  - intros handle w1 w2 -> -> ->. reflexivity.
Qed.

Section Closing.
Variable close : Page -> World -> outcome unit * World.

(** X10.  [closeBrowser()] never throws.  Without a page it does nothing;
    with a page whose [close()] succeeds it clears the page field; when
    [close()] throws, the error is swallowed and the page field keeps the
    handle. *)
Theorem closeBrowser_cases (t : Tool Page) (w : World) :
  (exists t' w', closeBrowser close t w = (Ok tt, t', w')) /\
  (page t = None -> closeBrowser close t w = (Ok tt, t, w)) /\
  (forall handle w',
      page t = Some handle -> close handle w = (Ok tt, w') ->
      closeBrowser close t w =
      (Ok tt, mkTool None (lastActionTime t) (timeout t) (idleTimeout t), w')) /\
  (forall handle e w',
      page t = Some handle -> close handle w = (Throw e, w') ->
      closeBrowser close t w = (Ok tt, t, w')).
Proof.
  unfold closeBrowser, tryCatch, bind, getPage, await, setPage, ret.
  destruct (page t) as [handle|] eqn:Hp.
  - destruct (close handle w) as [[[]|e] w'] eqn:Hc; simpl.
    + split; [eauto|]. split; [discriminate|]. split.
      * intros h w2 Hh. injection Hh as <-. rewrite Hc.
        intros H. now injection H as <-.
      * intros h e w2 Hh. injection Hh as <-. rewrite Hc. discriminate.
    + split; [eauto|]. split; [discriminate|]. split.
      * intros h w2 Hh. injection Hh as <-. rewrite Hc. discriminate.
      * intros h e' w2 Hh. injection Hh as <-. rewrite Hc.
        intros H. now injection H as _ <-.
  - split; [eauto|]. split; [reflexivity|]. split; intros; discriminate.
Qed.

Lemma idleSweep_quiet (t : Tool Page) (w : World) :
  idle env t w = false -> idleSweep env close t w = (Ok tt, t, w).
Proof. unfold idleSweep. now intros ->. Qed.

(** X11.  A run of the idle timer's callback no later than [idleTimeout]
    after a call of [_call], whatever the call was, closes nothing: the
    instance and the outside world stay as they are. *)
Theorem sweep_after_call_keeps_page (input : string) (t : Tool Page)
    (w w2 : World) :
  (Z.of_N (now env w2) - Z.of_N (now env w) <= Z.of_N (idleTimeout t))%Z ->
  let t1 := snd (fst (_call env input t w)) in
  idleSweep env close t1 w2 = (Ok tt, t1, w2).
Proof.
  intros Hle. cbv zeta. apply idleSweep_quiet. unfold idle.
  destruct (call_instance input t w) as [-> | (_ & _ & handle & ->)]; simpl;
    rewrite Z.gtb_ltb; apply Z.ltb_ge; exact Hle.
Qed.

(** X12.  A run of the idle timer's callback more than [idleTimeout]
    after the last time stamp, on an instance whose page closes without
    error, clears the page field; [text], [select], [previous],
    [get-html] and [get-structured-urls] then return their no-page
    advisory. *)
Theorem sweep_closes_idle_page (t : Tool Page) (w w' : World) (handle : Page) :
  page t = Some handle ->
  (Z.of_N (now env w) - Z.of_N (lastActionTime t) > Z.of_N (idleTimeout t))%Z ->
  close handle w = (Ok tt, w') ->
  let t' := mkTool None (lastActionTime t) (timeout t) (idleTimeout t) in
  idleSweep env close t w = (Ok tt, t', w') /\
  (forall v params w2,
      v <> Open -> v <> Summarize ->
      handler env v params t' w2 =
      (Ok match v with GetText => advisoryLong | _ => advisory end, t', w2)).
Proof.
  intros Hp Hidle Hc. cbv zeta. split.
  - unfold idleSweep, idle. apply Z.gtb_gt in Hidle. rewrite Hidle.
    unfold closeBrowser, tryCatch, bind, getPage, await, setPage.
    rewrite Hp, Hc. reflexivity.
  - intros v params w2 Ho Hs.
    now apply (@ToolFacts.no_page_advisory World Page Store env).
Qed.

End Closing.

Lemma selectDiv_outcome (selector : string) (t : Tool Page) (w : World) :
  match fst (fst (selectDiv env selector t w)) with
  | Ok text => truthy text = true
  | Throw e => exists message, e = ErrorObject "TypeError" message
  end.
Proof.
  unfold selectDiv, selectDivTry, tryCatch, bind, getPage, await, ret.
  destruct (page t) as [handle|]; [|reflexivity].
  destruct (querySelector env handle selector w) as [[found|e] w']; simpl.
  - destruct found as [[|c text]|]; reflexivity.
  - rewrite (@ToolFacts.report_reported World Page Store env).
    destruct e; simpl; eauto.
Qed.

(** X13.  [select] never returns an empty text: the handler returns a
    non-empty text or throws a [TypeError] (for a thrown null or
    undefined), and through [_call] it always returns a non-empty text. *)
Theorem selectDiv_text_not_empty (selector : string) (t : Tool Page) (w : World) :
  match fst (fst (selectDiv env selector t w)) with
  | Ok text => truthy text = true
  | Throw e => exists message, e = ErrorObject "TypeError" message
  end /\
  exists text t' w',
    dispatched env Select selector t w = (Ok text, t', w') /\
    truthy text = true.
Proof.
  split; [apply selectDiv_outcome|].
  unfold dispatched, tryCatch, bind, touch. simpl handler.
  pose proof (selectDiv_outcome selector (touched env t w) w) as H.
  destruct (selectDiv env selector (touched env t w) w) as [[[text|e] t1] w1];
    simpl in H.
  - exists text, t1, w1. split; [reflexivity | exact H].
  - destruct H as [message ->].
    exists ("Error: " ++ message), t1, w1. split; reflexivity.
Qed.

End WithEnv.

Import Sample.

Lemma open_reuses_page_witness :
  page (mkTool (Some 1) 0%N 30000%N 300000%N) = Some 1 /\
  openPage sampleEnv "https://example.com"
           (mkTool (Some 1) 0%N 30000%N 300000%N) 5%N
  = (Ok "Page opened successfully", mkTool (Some 1) 0%N 30000%N 300000%N, 6%N).
Proof.
  split; [reflexivity|].
  exact (@open_reuses_page N nat (list string) sampleEnv "https://example.com"
           (mkTool (Some 1) 0%N 30000%N 300000%N) 5%N 1 eq_refl).
Defined.

Lemma open_without_page_witness :
  page (newTool nat 0) = None /\
  puppeteer offlineEnv 5%N = false /\
  openPage offlineEnv "https://example.com" (newTool nat 0) 5%N
  = (Ok "Error opening page: Puppeteer service is not available",
     newTool nat 0, 5%N).
Proof.
  split; [reflexivity|]. split; [reflexivity|].
  exact (proj1 (@open_without_page N nat (list string) offlineEnv
                  "https://example.com" (newTool nat 0) 5%N eq_refl) eq_refl).
Defined.

Lemma sweep_after_call_keeps_page_witness :
  (Z.of_N (now sampleEnv 300005%N) - Z.of_N (now sampleEnv 5%N)
   <= Z.of_N (idleTimeout (newTool nat 0)))%Z /\
  idleSweep sampleEnv sampleClose
            (snd (fst (_call sampleEnv "open https://example.com"
                             (newTool nat 0) 5%N))) 300005%N
  = (Ok tt, mkTool (Some 1) 5%N 30000%N 300000%N, 300005%N).
Proof.
  assert (H : (Z.of_N (now sampleEnv 300005%N) - Z.of_N (now sampleEnv 5%N)
               <= Z.of_N (idleTimeout (newTool nat 0)))%Z)
    by (vm_compute; discriminate).
  split; [exact H|].
  exact (@sweep_after_call_keeps_page N nat (list string) sampleEnv sampleClose
           "open https://example.com" (newTool nat 0) 5%N 300005%N H).
Defined.

Lemma sweep_closes_idle_page_witness :
  (Z.of_N (now sampleEnv 300006%N)
   - Z.of_N (lastActionTime (mkTool (Some 1) 5%N 30000%N 300000%N))
   > Z.of_N (idleTimeout (mkTool (Some 1) 5%N 30000%N 300000%N)))%Z /\
  idleSweep sampleEnv sampleClose (mkTool (Some 1) 5%N 30000%N 300000%N)
            300006%N
  = (Ok tt, mkTool None 5%N 30000%N 300000%N, 300007%N).
Proof.
  assert (H : (Z.of_N (now sampleEnv 300006%N)
               - Z.of_N (lastActionTime (mkTool (Some 1) 5%N 30000%N 300000%N))
               > Z.of_N (idleTimeout (mkTool (Some 1) 5%N 30000%N 300000%N)))%Z)
    by (vm_compute; reflexivity).
  split; [exact H|].
  exact (proj1 (@sweep_closes_idle_page N nat (list string) sampleEnv
                  sampleClose (mkTool (Some 1) 5%N 30000%N 300000%N)
                  300006%N 300007%N 1 eq_refl H eq_refl)).
Defined.

Example failed_close_keeps_handle :
  closeBrowser failingClose (mkTool (Some 1) 5%N 30000%N 300000%N) 9%N
  = (Ok tt, mkTool (Some 1) 5%N 30000%N 300000%N, 10%N)
  /\ closeBrowser sampleClose (mkTool (Some 1) 5%N 30000%N 300000%N) 9%N
  = (Ok tt, mkTool None 5%N 30000%N 300000%N, 10%N).
Proof. split; reflexivity. Qed.

End SessionFacts.

(** ** The tool: reading a command *)

Module RoutingFacts.
Import JS Browser.
Local Open Scope string_scope.

Lemma lowerChar_space (c : ascii) :
  Ascii.eqb (lowerChar c) " " = Ascii.eqb c " ".
Proof.
  destruct c as [b0 b1 b2 b3 b4 b5 b6 b7];
    destruct b0, b1, b2, b3, b4, b5, b6, b7; reflexivity.
Qed.

Lemma lowerChar_whiteSpace (c : ascii) :
  isWhiteSpace (lowerChar c) = isWhiteSpace c.
Proof.
  destruct c as [b0 b1 b2 b3 b4 b5 b6 b7];
    destruct b0, b1, b2, b3, b4, b5, b6, b7; reflexivity.
Qed.

Lemma lowerChar_twice (c : ascii) : lowerChar (lowerChar c) = lowerChar c.
Proof.
  destruct c as [b0 b1 b2 b3 b4 b5 b6 b7];
    destruct b0, b1, b2, b3, b4, b5, b6, b7; reflexivity.
Qed.

Lemma toLowerCase_twice (s : string) :
  toLowerCase (toLowerCase s) = toLowerCase s.
Proof.
  induction s as [|c s IH]; simpl; [reflexivity|].
  now rewrite lowerChar_twice, IH.
Qed.

Lemma toLowerCase_length (s : string) :
  String.length (toLowerCase s) = String.length s.
Proof. induction s as [|c s IH]; simpl; [reflexivity | now rewrite IH]. Qed.

Lemma toLowerCase_indexOf (s : string) :
  indexOf " " (toLowerCase s) = indexOf " " s.
Proof.
  induction s as [|c s IH]; simpl; [reflexivity|].
  rewrite lowerChar_space, IH. reflexivity.
Qed.

Lemma toLowerCase_trimStart (s : string) :
  trimStart (toLowerCase s) = toLowerCase (trimStart s).
Proof.
  induction s as [|c s IH]; simpl; [reflexivity|].
  rewrite lowerChar_whiteSpace. destruct (isWhiteSpace c); [exact IH|reflexivity].
Qed.

Lemma toLowerCase_trimEnd (s : string) :
  trimEnd (toLowerCase s) = toLowerCase (trimEnd s).
Proof.
  induction s as [|c s IH]; simpl; [reflexivity|].
  rewrite IH, lowerChar_whiteSpace.
  destruct (trimEnd s); simpl; [|reflexivity].
  destruct (isWhiteSpace c); reflexivity.
Qed.

Lemma toLowerCase_trim (s : string) :
  trim (toLowerCase s) = toLowerCase (trim s).
Proof. unfold trim. now rewrite toLowerCase_trimStart, toLowerCase_trimEnd. Qed.

Lemma indexOf_token (token rest : string) :
  indexOf " " token = None ->
  indexOf " " (token ++ String " " rest) = Some (String.length token).
Proof.
  induction token as [|c token IH]; simpl; [reflexivity|].
  destruct (Ascii.eqb c " "); [discriminate|].
  destruct (indexOf " " token); [discriminate|]. intros _.
  now rewrite IH.
Qed.

Lemma sliceTo_token (token rest : string) :
  sliceTo (String.length token) (token ++ rest) = token.
Proof.
  induction token as [|c token IH]; simpl.
  - now destruct rest.
  - now rewrite IH.
Qed.

Lemma sliceFrom_token (token : string) (c : ascii) (rest : string) :
  sliceFrom (S (String.length token)) (token ++ String c rest) = rest.
Proof.
  induction token as [|d token IH]; simpl.
  - now destruct rest.
  - exact IH.
Qed.

(** The action and the parameter of [token rest], a token with no space. *)
Lemma route_token (token rest : string) :
  indexOf " " token = None ->
  route (token ++ " " ++ rest) = (toLowerCase (trim token), trim rest).
Proof.
  intros Hn. unfold route. simpl append.
  rewrite indexOf_token by exact Hn. rewrite sliceTo_token, sliceFrom_token.
  reflexivity.
Qed.

(** X15.  For an input made of a token without a space, a space and a
    rest, the routing does not depend on the case of the token; and when
    the lowercased token is a key of [this.actions], the input goes to
    that key's handler with the trimmed rest, case unchanged, as
    parameter. *)
Theorem routing_of_command (token rest : string) :
  indexOf " " token = None ->
  routing (token ++ " " ++ rest) = routing (toLowerCase token ++ " " ++ rest) /\
  (forall v, In (toLowerCase token, v) actions ->
             routing (token ++ " " ++ rest) = ToHandler v (trim rest)).
Proof.
  intros Hn.
  assert (Hl : indexOf " " (toLowerCase token) = None)
    by now rewrite toLowerCase_indexOf.
  unfold routing. rewrite !route_token by assumption.
  rewrite toLowerCase_trim, toLowerCase_twice. split; [reflexivity|].
  intros v Hin. rewrite <- toLowerCase_trim.
  simpl in Hin.
  repeat (destruct Hin as [Heq | Hin];
          [injection Heq as <- <-; reflexivity|]).
  destruct Hin.
Qed.

Lemma routing_of_command_witness :
  indexOf " " "Get-HTML" = None /\
  routing ("Get-HTML" ++ " " ++ "  now ") = ToHandler GetHtml "now".
Proof.
  split; [reflexivity|].
  exact (proj2 (@routing_of_command "Get-HTML" "  now " eq_refl)
               GetHtml (or_intror (or_intror (or_intror (or_intror
                 (or_intror (or_introl eq_refl))))))).
Defined.

End RoutingFacts.

(** ** The tool: links, text and construction *)

Module PageFacts.
Import JS Browser.
Local Open Scope string_scope.

Lemma forEach_unparsable (parse : string -> option URL) (invalid : thrown)
    (currentHost : string) (l : list Anchor) (u : UrlStructure) :
  ~ parsable parse l -> forEach parse invalid currentHost l u = Throw invalid.
Proof.
  revert u. induction l as [|a l IH]; intros u Hbad.
  - exfalso. apply Hbad. intros a [].
  - simpl. unfold visit.
    destruct (truthy (a_href a)) eqn:Ht; simpl.
    + destruct (parse (a_href a)) as [url|] eqn:Hp; [|reflexivity].
      apply IH. intros Hl. apply Hbad. intros x [<-|Hx] Hxt.
      * congruence.
      * now apply Hl.
    + apply IH. intros Hl. apply Hbad. intros x [<-|Hx] Hxt.
      * congruence.
      * now apply Hl.
Qed.

(** X14.  When one link of the page has a non-empty [href] that
    [new URL] rejects, [get-structured-urls] returns
    [Error getting structured URLs: ] followed by the error's message and
    no bucket at all, whatever the other links are. *)
Theorem getStructuredUrls_unparsable_link (World Page Store : Type)
    (env : Env World Page Store) (t : Tool Page) (w w' : World)
    (handle : Page) (doc : Document) (a : Anchor) :
  page t = Some handle ->
  document env handle w = (Ok doc, w') ->
  In a (anchors doc) -> truthy (a_href a) = true ->
  parseUrl env (a_href a) = None ->
  getStructuredUrls env t w =
  (Ok ("Error getting structured URLs: " ++ invalidUrlMessage env), t, w').
Proof.
  intros Hp Hd Hin Ht Hparse.
  unfold getStructuredUrls, getStructuredUrlsTry, tryCatch, bind, getPage,
    await.
  rewrite Hp, Hd. unfold classifyLinks.
  rewrite forEach_unparsable; [reflexivity|].
  intros Hall. now apply (Hall a Hin Ht).
Qed.

Import Sample.

Lemma getStructuredUrls_unparsable_link_witness :
  parseUrl brokenLinkEnv "http://" = None /\
  getStructuredUrls brokenLinkEnv (mkTool (Some 1) 0%N 30000%N 300000%N) 5%N
  = (Ok "Error getting structured URLs: Invalid URL",
     mkTool (Some 1) 0%N 30000%N 300000%N, 6%N).
Proof.
  split; [reflexivity|].
  exact (@getStructuredUrls_unparsable_link N nat (list string) brokenLinkEnv
           (mkTool (Some 1) 0%N 30000%N 300000%N) 5%N 6%N 1 brokenLinkDocument
           (mkAnchor "http://" "broken" false false)
           eq_refl eq_refl (or_intror (or_introl eq_refl)) eq_refl eq_refl).
Defined.

(** *** The post-processing is idempotent *)

Lemma append_empty (x : string) : x ++ "" = x.
Proof. induction x as [|c x IH]; simpl; [reflexivity | now rewrite IH]. Qed.

Lemma trimStart_fixed (s : string) :
  startsWithWhiteSpace s = false -> trimStart s = s.
Proof. destruct s as [|c s]; simpl; [reflexivity | now intros ->]. Qed.

Lemma trimEnd_fixed (s : string) :
  endsWithWhiteSpace s = false -> trimEnd s = s.
Proof.
  induction s as [|c s IH]; [reflexivity|].
  destruct s as [|d s].
  - simpl. now intros ->.
  - intros H. change (endsWithWhiteSpace (String d s) = false) in H.
    change (trimEnd (String c (String d s))) with
      match trimEnd (String d s) with
      | EmptyString => if isWhiteSpace c then EmptyString else String c EmptyString
      | r => String c r
      end.
    now rewrite (IH H).
Qed.

Lemma isLineFeed_eq (c : ascii) : isLineFeed c = true -> c = "010"%char.
Proof.
  unfold isLineFeed. intros H. apply Nat.eqb_eq in H.
  rewrite <- (ascii_nat_embedding c), H. reflexivity.
Qed.

Lemma hasLineFeedRun_tail (c : ascii) (s : string) :
  hasLineFeedRun 3 (String c s) = false -> hasLineFeedRun 3 s = false.
Proof.
  change (hasLineFeedRun 3 (String c s)) with
    ((3 <=? leadingLineFeeds (String c s))%nat || hasLineFeedRun 3 s).
  intros H. now apply orb_false_iff in H.
Qed.

Lemma hasLineFeedRun_head (s : string) :
  hasLineFeedRun 3 s = false -> leadingLineFeeds s < 3.
Proof.
  destruct s as [|c s]; [simpl; lia|].
  change (hasLineFeedRun 3 (String c s)) with
    ((3 <=? leadingLineFeeds (String c s))%nat || hasLineFeedRun 3 s).
  intros H. apply orb_false_iff in H. destruct H as [H _].
  now apply Nat.leb_gt in H.
Qed.

Lemma collapsedRun_short (run : nat) : run < 3 -> collapsedRun run = repeat LF run.
Proof.
  intros H. unfold collapsedRun. destruct (Nat.leb_spec 3 run); [lia|reflexivity].
Qed.

Lemma repeat_LF_shift (run : nat) (s : string) :
  repeat LF run ++ String "010"%char s = repeat LF (S run) ++ s.
Proof.
  induction run as [|run IH]; [reflexivity|].
  change (repeat LF (S run)) with (LF ++ repeat LF run) at 1.
  change (repeat LF (S (S run))) with (LF ++ repeat LF (S run)).
  rewrite !TextFacts.append_assoc. now rewrite IH.
Qed.

Lemma leadingLineFeeds_repeat (run : nat) (s : string) :
  leadingLineFeeds (repeat LF run ++ s) = run + leadingLineFeeds s.
Proof. induction run as [|run IH]; simpl; [reflexivity | now rewrite IH]. Qed.

Lemma hasLineFeedRun_drop (run : nat) (s : string) :
  hasLineFeedRun 3 (repeat LF run ++ s) = false -> hasLineFeedRun 3 s = false.
Proof.
  induction run as [|run IH]; [auto|]. intros H. apply IH.
  now apply hasLineFeedRun_tail in H.
Qed.

Lemma collapseFrom_fixed (s : string) (run : nat) :
  hasLineFeedRun 3 (repeat LF run ++ s) = false ->
  collapseFrom run s = repeat LF run ++ s.
Proof.
  revert run. induction s as [|c s IH]; intros run H.
  - simpl. apply hasLineFeedRun_head in H.
    rewrite leadingLineFeeds_repeat in H. simpl in H.
    rewrite append_empty. apply collapsedRun_short. lia.
  - simpl. destruct (isLineFeed c) eqn:Hc.
    + apply isLineFeed_eq in Hc. subst c.
      rewrite repeat_LF_shift in *. now apply IH.
    + pose proof (hasLineFeedRun_head _ H) as Hr.
      rewrite leadingLineFeeds_repeat in Hr.
      rewrite collapsedRun_short by lia. f_equal. f_equal.
      apply (IH 0). simpl.
      apply hasLineFeedRun_drop in H. now apply hasLineFeedRun_tail in H.
Qed.

(** X16.  The text of a page is a fixed point of its post-processing:
    [trim()] leaves it as it is, and so does
    [replace(/\n{3,}/g, '\n\n')]. *)
Theorem postprocess_idempotent (resolve : string -> option string) (body : Node) :
  let out := structuredText resolve body in
  trim out = out /\ collapseLineFeeds out = out /\
  collapseLineFeeds (trim out) = out.
Proof.
  cbv zeta. unfold structuredText. set (walk := processNode resolve body 0).
  assert (Hstart : startsWithWhiteSpace (collapseLineFeeds (trim walk)) = false).
  { apply TextFacts.startsWithWhiteSpace_collapse. unfold trim.
    apply TextFacts.startsWithWhiteSpace_trimEnd,
      TextFacts.startsWithWhiteSpace_trimStart. }
  assert (Hend : endsWithWhiteSpace (collapseLineFeeds (trim walk)) = false).
  { rewrite TextFacts.endsWithWhiteSpace_lastChar.
    destruct (lastChar (collapseLineFeeds (trim walk))) as [c|] eqn:Hc;
      [|reflexivity].
    destruct (lastChar (trim walk)) as [d|] eqn:Hd.
    - pose proof (TextFacts.lastChar_trimEnd _ Hd) as Hws.
      assert (Hlf : isLineFeed d = false).
      { destruct (isLineFeed d) eqn:E; [|reflexivity].
        apply TextFacts.isLineFeed_isWhiteSpace in E. congruence. }
      unfold collapseLineFeeds in Hc.
      rewrite (@TextFacts.lastChar_collapseFrom _ 0 _ Hd Hlf) in Hc.
      injection Hc as <-. exact Hws.
    - destruct (trim walk) as [|e r]; [discriminate|].
      exfalso. clear -Hd. revert e Hd. induction r as [|f r IH]; intros e Hd.
      + discriminate.
      + apply (IH f). exact Hd. }
  assert (Hrun : hasLineFeedRun 3 (collapseLineFeeds (trim walk)) = false)
    by apply TextFacts.hasLineFeedRun_collapseFrom.
  assert (Htrim : trim (collapseLineFeeds (trim walk)) = collapseLineFeeds (trim walk)).
  { unfold trim at 1. rewrite trimStart_fixed by exact Hstart.
    now apply trimEnd_fixed. }
  assert (Hcol : collapseLineFeeds (collapseLineFeeds (trim walk))
                 = collapseLineFeeds (trim walk)).
  { unfold collapseLineFeeds at 1. now apply (@collapseFrom_fixed _ 0). }
  split; [exact Htrim|]. split; [exact Hcol|]. now rewrite Htrim.
Qed.


End PageFacts.

(** ** Server-sent events *)

Module SseFacts.
Import JS Sse.
Local Open Scope string_scope.

Lemma split_not_empty (s : string) : split s <> [].
Proof.
  assert (H : split s <> [] /\ forall c, split (String c s) <> []).
  { induction s as [|d s [IH1 IH2]].
    - split; [discriminate|]. intros c. discriminate.
    - split; [apply IH2|]. intros c.
      change (split (String c (String d s))) with
        (if isLineFeed c && isLineFeed d then EmptyString :: split s
         else consHead c (split (String d s))).
      destruct (isLineFeed c && isLineFeed d); [discriminate|].
      destruct (split (String d s)); discriminate. }
  apply H.
Qed.

Lemma concat_cons (sep x : string) (l : list string) :
  l <> [] -> String.concat sep (x :: l) = x ++ sep ++ String.concat sep l.
Proof. destruct l; [congruence | reflexivity]. Qed.

Lemma concat_consHead (sep : string) (c : ascii) (l : list string) :
  l <> [] -> String.concat sep (consHead c l) = String c (String.concat sep l).
Proof.
  destruct l as [|p [|q l]]; [congruence | reflexivity | reflexivity].
Qed.

Lemma isLineFeed_char (c : ascii) : isLineFeed c = true -> c = "010"%char.
Proof.
  unfold isLineFeed. intros H. apply Nat.eqb_eq in H.
  rewrite <- (ascii_nat_embedding c), H. reflexivity.
Qed.

Lemma split_join_pair (s : string) :
  String.concat (LF ++ LF) (split s) = s /\
  forall c, String.concat (LF ++ LF) (split (String c s)) = String c s.
Proof.
  induction s as [|d s [IH1 IH2]].
  - split; [reflexivity|]. intros c. reflexivity.
  - split; [apply IH2|]. intros c.
    change (split (String c (String d s))) with
      (if isLineFeed c && isLineFeed d then EmptyString :: split s
       else consHead c (split (String d s))).
    destruct (isLineFeed c && isLineFeed d) eqn:Hcd.
    + apply andb_true_iff in Hcd. destruct Hcd as [Hc Hd].
      apply isLineFeed_char in Hc, Hd. subst c d.
      rewrite concat_cons by apply split_not_empty. rewrite IH1. reflexivity.
    + rewrite concat_consHead by apply split_not_empty. now rewrite IH2.
Qed.

Lemma hasLineFeedRun2_cons (c : ascii) (p : string) :
  hasLineFeedRun 2 (String c p) =
  (isLineFeed c && (1 <=? leadingLineFeeds p)%nat) || hasLineFeedRun 2 p.
Proof.
  change (hasLineFeedRun 2 (String c p)) with
    ((2 <=? leadingLineFeeds (String c p))%nat || hasLineFeedRun 2 p).
  simpl leadingLineFeeds. destruct (isLineFeed c); reflexivity.
Qed.

Lemma split_tidy_pair (s : string) :
  tidy s (split s) /\ forall c, tidy (String c s) (split (String c s)).
Proof.
  induction s as [|d s [IH1 IH2]].
  - split.
    + split; [simpl; lia | repeat constructor].
    + intros c. split; [simpl; lia|]. constructor; [|constructor].
      rewrite hasLineFeedRun2_cons. simpl. now rewrite andb_false_r.
  - split; [apply IH2|]. intros c.
    change (split (String c (String d s))) with
      (if isLineFeed c && isLineFeed d then EmptyString :: split s
       else consHead c (split (String d s))).
    destruct (isLineFeed c && isLineFeed d) eqn:Hcd.
    + split; [simpl; lia|]. constructor; [reflexivity | apply IH1].
    + destruct (IH2 d) as [Hhead Hall].
      destruct (split (String d s)) as [|p rest]; [contradiction|].
      simpl consHead. inversion Hall as [|? ? Hp Hrest]; subst. split.
      * simpl. destruct (isLineFeed c); [|lia].
        simpl in Hcd. simpl in Hhead. rewrite Hcd in Hhead. lia.
      * constructor; [|exact Hrest].
        rewrite hasLineFeedRun2_cons, Hp, orb_false_r.
        destruct (isLineFeed c); [|reflexivity]. simpl in Hcd.
        simpl in Hhead. rewrite Hcd in Hhead.
        destruct (leadingLineFeeds p); [reflexivity | lia].
Qed.

(** X18.  [split('\n\n')] always gives at least one piece, joining
    the pieces with two line feeds gives the string back, and no piece
    holds two line feeds in a row. *)
Theorem split_join (s : string) :
  String.concat (LF ++ LF) (split s) = s /\
  split s <> [] /\
  Forall (fun piece => hasLineFeedRun 2 piece = false) (split s).
Proof.
  split; [apply split_join_pair|]. split; [apply split_not_empty|].
  apply split_tidy_pair.
Qed.

Lemma hasLineFeedRun2_sliceFrom (n : nat) (s : string) :
  hasLineFeedRun 2 s = false -> hasLineFeedRun 2 (sliceFrom n s) = false.
Proof.
  revert s. induction n as [|n IH]; intros s H; [now destruct s|].
  destruct s as [|c s]; [reflexivity|]. simpl. apply IH.
  rewrite hasLineFeedRun2_cons in H. now apply orb_false_iff in H.
Qed.

Lemma prefix_sliceFrom (p s : string) :
  prefix p s = true -> s = p ++ sliceFrom (String.length p) s.
Proof.
  revert s. induction p as [|c p IH]; intros s H; simpl.
  - now destruct s.
  - destruct s as [|d s]; [discriminate|]. simpl in H.
    destruct (ascii_dec c d) as [->|]; [|discriminate].
    simpl. f_equal. now apply IH.
Qed.

Lemma itemsOf_spec (pieces : list string) (item : string) :
  In item (itemsOf pieces) ->
  exists piece, In piece pieces /\ blank piece = false /\ item = stripData piece.
Proof.
  induction pieces as [|p pieces IH]; simpl; [contradiction|].
  destruct (blank p) eqn:Hb.
  - intros H. destruct (IH H) as (q & Hq & Hqb & Heq). eauto.
  - intros [<-|H]; [eauto|].
    destruct (IH H) as (q & Hq & Hqb & Heq). eauto.
Qed.

(** X19.  Every item yielded for a chunk holds no two line feeds in a
    row and comes from a piece of the chunk that is not blank: it is the
    piece itself, or the piece without its leading [data: ].  A blank
    chunk yields nothing, and a chunk yields at most one item per piece. *)
Theorem chunkItems_shape (decodeValue : string) :
  Forall (fun item =>
            hasLineFeedRun 2 item = false /\
            exists piece,
              In piece (split decodeValue) /\ blank piece = false /\
              (item = piece /\ prefix "data: " piece = false \/
               piece = "data: " ++ item))
         (chunkItems decodeValue) /\
  (blank decodeValue = true -> chunkItems decodeValue = []) /\
  List.length (chunkItems decodeValue) <= List.length (split decodeValue).
Proof.
  split; [|split].
  - apply Forall_forall. intros item Hin. unfold chunkItems in Hin.
    destruct (blank decodeValue); [contradiction|].
    destruct (itemsOf_spec _ _ Hin) as (piece & Hp & Hb & ->).
    assert (Hrun : hasLineFeedRun 2 piece = false).
    { destruct (split_tidy_pair decodeValue) as [[_ Hall] _].
      rewrite Forall_forall in Hall. now apply Hall. }
    unfold stripData. destruct (prefix "data: " piece) eqn:Hpre.
    + split; [now apply hasLineFeedRun2_sliceFrom|].
      exists piece. split; [exact Hp|]. split; [exact Hb|]. right.
      now apply (prefix_sliceFrom "data: ").
    + split; [exact Hrun|]. exists piece. auto.
  - unfold chunkItems. now intros ->.
  - unfold chunkItems. destruct (blank decodeValue); [simpl; lia|].
    induction (split decodeValue) as [|p l IH]; simpl; [lia|].
    destruct (blank p); simpl; lia.
Qed.

Lemma pump_chunks (chunks : list string) (rest : list read) :
  pump (map Chunk chunks ++ rest) =
  ((flat_map chunkItems chunks ++ fst (pump rest))%list, snd (pump rest)).
Proof.
  induction chunks as [|v chunks IH]; simpl.
  - now destruct (pump rest).
  - rewrite IH. now rewrite app_assoc.
Qed.

(** X20.  For a response that is not ok the generator yields nothing
    and throws the network error built from status, status text and body,
    without taking the reader.  For an ok response it yields the items of
    the chunks in order, chunk by chunk; at the end of the stream it
    yields [[DONE]], returns and releases the reader, ignoring later
    reads; when a read throws, it has yielded the items of the chunks
    before, propagates the error and releases the reader. *)
Theorem sseIterable_runs (response : Response) :
  (ok response = false ->
   sseIterable response =
   mkRun [] (Threw (NetworkError (ErrorObject "Error" (statusLine response))))
         false) /\
  (forall chunks later,
      ok response = true ->
      reads response = (map Chunk chunks ++ Done :: later)%list ->
      sseIterable response =
      mkRun (flat_map chunkItems chunks ++ ["[DONE]"])%list Returned true) /\
  (forall chunks e later,
      ok response = true ->
      reads response = (map Chunk chunks ++ ReadError e :: later)%list ->
      sseIterable response =
      mkRun (flat_map chunkItems chunks) (Threw (Rejected e)) true).
Proof.
  unfold sseIterable. split; [|split].
  - now intros ->.
  - intros chunks later -> ->. rewrite pump_chunks. reflexivity.
  - intros chunks e later -> ->. rewrite pump_chunks. simpl.
    now rewrite app_nil_r.
Qed.

Example sse_split_event :
  sseIterable (mkResponse true 200 "OK" None
                 [Chunk "data: he"; Chunk ("llo" ++ LF ++ LF); Done])
  = mkRun ["he"; "llo"; "[DONE]"] Returned true
  /\ sseIterable (mkResponse true 200 "OK" None
                    [Chunk ("data: hello" ++ LF ++ LF); Done])
  = mkRun ["hello"; "[DONE]"] Returned true.
Proof. split; reflexivity. Qed.

Example sse_empty_data_item :
  chunkItems ("data: " ++ LF ++ LF ++ "data: x") = [""; "x"].
Proof. reflexivity. Qed.

Example sse_not_ok :
  sseIterable (mkResponse false 502 "Bad Gateway" None [Chunk "data: x"])
  = mkRun [] (Threw (NetworkError (ErrorObject "Error" "502 Bad Gateway {}")))
          false.
Proof. reflexivity. Qed.

End SseFacts.

(** ** The search service *)

Module SearchFacts.
Import SearchService.
Local Open Scope string_scope.

(** X21.  [getTools] returns, in registry order, the tools of exactly
    the names that pass the filter; the filter of the browsing chain
    passes the names [search], [web-browser] and [puppeteer-browser] and
    no other, so never the name [web-search]. *)
Theorem browsing_tools (Tool : Type) (names : list string)
    (getTool : string -> Tool) :
  getTools names getTool browsingFilter
  = map getTool (filter browsingFilter names) /\
  (forall name,
      In name (filter browsingFilter names) <->
      In name names /\
      (name = "search" \/ name = "web-browser" \/ name = "puppeteer-browser")) /\
  ~ In "web-search" (filter browsingFilter names) /\
  List.length (getTools names getTool browsingFilter) <= List.length names.
Proof.
  split; [reflexivity|]. split; [|split].
  - intros name. rewrite filter_In. unfold browsingFilter.
    rewrite !orb_true_iff, !String.eqb_eq. tauto.
  - intros H. apply filter_In in H. destruct H as [_ H]. discriminate.
  - unfold getTools. rewrite length_map. apply filter_length_le.
Qed.

End SearchFacts.
